(** * The OpenAI handler of MindsDB: prompt building and batched completion

    A shallow embedding of
    [mindsdb/integrations/handlers/openai_handler/openai_handler.py]:
    the argument validation of [create_validation], the prompt construction
    of [predict] (template, question+context and question-only modes) and
    the batched dispatch of [_completion] (sequential and thread-pool
    policies), followed by the properties established about them.

    Python values are modelled by small inductive types, dictionaries and
    data-frame columns by finite maps, exceptions by a sum type, the remote
    completion service by a state transformer, and the thread pool by the
    order in which its tasks are served. *)

From Stdlib Require Import ZArith QArith Ascii String.
From stdpp Require Import gmap strings list pretty.

Local Open Scope Z_scope.

(** ** Python strings

    A string is the sequence of its characters, each with a code below
    256: text in the Latin-1 range.  Characters beyond that range are not
    modelled. *)

Module PyStr.

Definition newline : ascii := "010"%char.

(** [s.startswith(sub)] *)
Fixpoint startswith (sub s : string) : bool :=
  match sub, s with
  | EmptyString, _ => true
  | String a sub', String b s' => if decide (a = b) then startswith sub' s' else false
  | String _ _, EmptyString => false
  end.

(** Lowest index at which [sub] occurs in [s], if any. *)
Fixpoint index_of (sub s : string) : option nat :=
  if startswith sub s then Some 0%nat
  else match s with
       | EmptyString => None
       | String _ s' => S <$> index_of sub s'
       end.

(** [s.find(sub)]: the lowest index, or -1. *)
Definition find (sub s : string) : Z :=
  match index_of sub s with
  | Some n => Z.of_nat n
  | None => -1
  end.

(** [sub in s] *)
Definition contains (sub s : string) : bool :=
  match index_of sub s with
  | Some _ => true
  | None => false
  end.

Fixpoint drop (n : nat) (s : string) : string :=
  match n, s with
  | O, _ => s
  | S n', String _ s' => drop n' s'
  | S _, EmptyString => EmptyString
  end.

Fixpoint take (n : nat) (s : string) : string :=
  match n, s with
  | S n', String a s' => String a (take n' s')
  | _, _ => EmptyString
  end.

(** A slice bound as Python normalises it: negative bounds count from
    the end, and every bound is clamped to [0, len]. *)
Definition clamp_index (len i : Z) : Z :=
  if i <? 0 then Z.max 0 (i + len) else Z.min i len.

(** [s[lo:hi]] *)
Definition slice (s : string) (lo hi : Z) : string :=
  let n := Z.of_nat (String.length s) in
  let lo' := clamp_index n lo in
  let hi' := clamp_index n hi in
  take (Z.to_nat (hi' - lo')) (drop (Z.to_nat lo') s).

(** [s[lo:]] *)
Definition slice_from (s : string) (lo : Z) : string :=
  drop (Z.to_nat (clamp_index (Z.of_nat (String.length s)) lo)) s.

(** [c in chars] for a character [c] *)
Fixpoint mem (c : ascii) (chars : string) : bool :=
  match chars with
  | EmptyString => false
  | String a chars' => if decide (a = c) then true else mem c chars'
  end.

(** [s.lstrip(chars)] *)
Fixpoint lstrip (chars s : string) : string :=
  match s with
  | EmptyString => EmptyString
  | String a s' => if mem a chars then lstrip chars s' else s
  end.

(** [s.rstrip(chars)] *)
Fixpoint rstrip (chars s : string) : string :=
  match s with
  | EmptyString => EmptyString
  | String a s' =>
      match rstrip chars s' with
      | EmptyString => if mem a chars then EmptyString else String a EmptyString
      | r => String a r
      end
  end.

(** [s.strip(chars)] *)
Definition strip (chars s : string) : string := rstrip chars (lstrip chars s).

(** [s.replace(c, '')] for a one-character string [c] *)
Fixpoint remove_char (c : ascii) (s : string) : string :=
  match s with
  | EmptyString => EmptyString
  | String a s' => if decide (a = c) then remove_char c s' else String a (remove_char c s')
  end.

(** [s.split(sep)] for a non-empty separator: [skip] counts the characters
    of a separator still to be passed over, [cur] holds the current piece,
    reversed. *)
Fixpoint split_go (sep : string) (skip : nat) (cur : string) (s : string) : list string :=
  match s with
  | EmptyString => [String.rev cur]
  | String a s' =>
      match skip with
      | S k => split_go sep k cur s'
      | O =>
          if startswith sep s
          then String.rev cur :: split_go sep (String.length sep - 1) EmptyString s'
          else split_go sep 0 (String a cur) s'
      end
  end.

Definition split (sep s : string) : list string := split_go sep 0 EmptyString s.

Definition digit (c : ascii) : option Z :=
  let n := nat_of_ascii c in
  if ((48 <=? n)%nat && (n <=? 57)%nat)%bool then Some (Z.of_nat n - 48) else None.

Definition underscore : ascii := "_"%char.

(** The digits of a decimal literal, most significant first: single
    underscores are allowed between digits.  [after_digit] tells whether
    the previous character was a digit. *)
Fixpoint digits_go (after_digit : bool) (acc : Z) (s : string) : option Z :=
  match s with
  | EmptyString => if after_digit then Some acc else None
  | String a s' =>
      match digit a with
      | Some d => digits_go true (10 * acc + d) s'
      | None =>
          if decide (a = underscore)
          then (if after_digit then digits_go false acc s' else None)
          else None
      end
  end.

(** The whitespace [int()] passes over: tab, newline, vertical tab, form
    feed, carriage return and space, and beyond ASCII the next-line
    character (133) and the no-break space (160).  The separators 28 to 31
    are not among them. *)
Definition space_chars : string :=
  String "009" (String "010" (String "011" (String "012" (String "013"
    (String "032" (String "133" (String "160" EmptyString))))))).

(** The number of digits in a literal; underscores do not count. *)
Fixpoint digit_count (s : string) : nat :=
  match s with
  | EmptyString => 0
  | String a s' =>
      match digit a with
      | Some _ => S (digit_count s')
      | None => digit_count s'
      end
  end.

(** The most digits [int()] reads: the interpreter's default for
    [sys.get_int_max_str_digits()]. *)
Definition max_str_digits : nat := 4300.

(** The digits after the sign: a literal of more than [max_str_digits]
    digits is refused. *)
Definition literal (ds : string) : option Z :=
  if (digit_count ds <=? max_str_digits)%nat then digits_go false 0 ds else None.

(** [int(s)] in base 10: surrounding whitespace is dropped, one sign is
    allowed; [None] stands for [ValueError]. *)
Definition int (s : string) : option Z :=
  match strip space_chars s with
  | String "+" ds => literal ds
  | String "-" ds => Z.opp <$> literal ds
  | ds => literal ds
  end.

End PyStr.

(** ** Python values, exceptions and dictionaries *)

(** The JSON values held by the argument dictionaries. *)
Inductive json :=
  | JNull
  | JBool (b : bool)
  | JInt (z : Z)
  | JFloat (q : Q)
  | JStr (s : string).

(** The cells of a data frame: [None], the float NaN, booleans, integers
    and text.  The two missing values are kept apart, because [str] and
    [+] tell them apart.  Floats other than NaN are left out: their text
    form is not modelled. *)
Inductive cell :=
  | CNone
  | CNaN
  | CBool (b : bool)
  | CInt (z : Z)
  | CStr (s : string).

(** [pandas.isna(x)] *)
Definition isna (x : cell) : bool :=
  match x with
  | CNone | CNaN => true
  | _ => false
  end.

(** The exceptions the handler raises or lets through.  The handler's own
    [raise Exception(...)] sites have a constructor each. *)
Inductive exn :=
  | UsingClauseRequired
  | PromptSourceRequired
  | PromptSourceConflict
  | QuestionColumnExpected (col : json)
  | ContextColumnExpected (col : json)
  | MissingApiKey
  | TypeError
  | KeyError (key : json)
  | IndexError
  | ValueError
  | ZeroDivisionError
  | OverflowError
  | AttributeError
  | InvalidRequestError (user_message : string)
  | ServiceError (message : string).

(** A computation that returns a value or raises. *)
Abbreviation result := (sum exn).

Definition ret {A : Type} (x : A) : result A := inr x.

Definition bind {A B : Type} (m : result A) (f : A → result B) : result B :=
  match m with
  | inl e => inl e
  | inr x => f x
  end.

Notation "'let*' x := m 'in' k" := (bind m (λ x, k))
  (at level 10, x name, m at level 200, k at level 200, only parsing).

Definition raise {A : Type} (e : exn) : result A := inl e.

Abbreviation dict := (gmap string json).

(** [d.get(k, default)] *)
Definition get (d : dict) (k : string) (default : json) : json :=
  match d !! k with
  | Some v => v
  | None => default
  end.

(** [d[k]] *)
Definition item {V : Type} (d : gmap string V) (k : string) : result V :=
  match d !! k with
  | Some v => inr v
  | None => raise (KeyError (JStr k))
  end.

(** [k in d] *)
Definition has_key {V : Type} (d : gmap string V) (k : string) : bool :=
  bool_decide (is_Some (d !! k)).

(** Truth value of a JSON value in a condition. *)
Definition truthy (v : json) : bool :=
  match v with
  | JNull => false
  | JBool b => b
  | JInt z => negb (z =? 0)
  | JFloat q => negb (Qeq_bool q 0)
  | JStr s => negb (bool_decide (s = ""))
  end.

(** The number a JSON value stands for in a comparison, if it is one. *)
Definition number (v : json) : option Q :=
  match v with
  | JBool b => Some (if b then 1%Q else 0%Q)
  | JInt z => Some (inject_Z z)
  | JFloat q => Some q
  | JNull | JStr _ => None
  end.

(** [max(a, b)]: the second argument wins only when strictly greater. *)
Definition py_max (a b : json) : result json :=
  match number a, number b with
  | Some x, Some y => inr (if Qlt_le_dec x y then b else a)
  | _, _ => raise TypeError
  end.

(** [min(a, b)]: the second argument wins only when strictly smaller. *)
Definition py_min (a b : json) : result json :=
  match number a, number b with
  | Some x, Some y => inr (if Qlt_le_dec y x then b else a)
  | _, _ => raise TypeError
  end.

(** [str(x)] on a cell.  An integer is written in decimal, which is
    refused with [ValueError] when it takes more than
    [PyStr.max_str_digits] digits. *)
Definition str (x : cell) : result string :=
  match x with
  | CNone => ret "None"
  | CNaN => ret "nan"
  | CBool true => ret "True"
  | CBool false => ret "False"
  | CInt z =>
      if (String.length (pretty (Z.abs_N z)) <=? PyStr.max_str_digits)%nat
      then ret (pretty z) else raise ValueError
  | CStr s => ret s
  end.

(** An integer is turned into a float to be added to one: that raises
    when it rounds to 2^1024 or beyond. *)
Definition float_of_int_overflows (z : Z) : bool := 2 ^ 1024 - 2 ^ 970 <=? Z.abs z.

Definition add_nan (z : Z) : result cell :=
  if float_of_int_overflows z then raise OverflowError else inr CNaN.

(** [x + y] on two cells: text is concatenated, integers and booleans are
    added as integers, NaN added to a number is NaN, and neither text nor
    [None] mixes with anything else. *)
Definition add (x y : cell) : result cell :=
  match x, y with
  | CStr a, CStr b => inr (CStr (a +:+ b))
  | CInt a, CInt b => inr (CInt (a + b))
  | CInt a, CBool b => inr (CInt (a + Z.b2z b))
  | CBool a, CInt b => inr (CInt (Z.b2z a + b))
  | CBool a, CBool b => inr (CInt (Z.b2z a + Z.b2z b))
  | CNaN, CNaN | CNaN, CBool _ | CBool _, CNaN => inr CNaN
  | CNaN, CInt z | CInt z, CNaN => add_nan z
  | _, _ => raise TypeError
  end.

(** [l[lo:hi]] on a list *)
Definition slice {A : Type} (l : list A) (lo hi : Z) : list A :=
  let n := Z.of_nat (length l) in
  let lo' := PyStr.clamp_index n lo in
  let hi' := PyStr.clamp_index n hi in
  take (Z.to_nat (hi' - lo')) (drop (Z.to_nat lo') l).

(** [l[lo:]] *)
Definition slice_from {A : Type} (l : list A) (lo : Z) : list A :=
  drop (Z.to_nat (PyStr.clamp_index (Z.of_nat (length l)) lo)) l.

(** [for x in xs: body(x)] over a computation that may raise. *)
Fixpoint for_each {A B : Type} (body : A → result B) (xs : list A) : result (list B) :=
  match xs with
  | [] => inr []
  | x :: xs' =>
      let* y := body x in
      let* ys := for_each body xs' in
      ret (y :: ys)
  end.

(** ** The handler and its collaborators *)

Record OpenAIHandler := {
  default_model : string;
  rate_limit : Z;
  max_batch_size : Z;
  default_max_tokens : Z
}.

(** [__init__] *)
Definition init : OpenAIHandler := {|
  default_model := "text-davinci-002";
  rate_limit := 60;
  max_batch_size := 20;
  default_max_tokens := 20
|}.

(** What the handler reads from its surroundings: the model storage, the
    connection arguments of the engine storage, the [OPENAI_API_KEY]
    environment variable and the configuration file. *)
Record Env := {
  model_storage : gmap string dict;
  connection_args : dict;
  env_api_key : option string;
  config : gmap string dict
}.

(** ** [create_validation] and [create]

    [args] is the dictionary of the statement, or [None]; of its entries
    only those holding a dictionary (the [USING] clause, the prediction
    parameters) are read, so the entries are dictionaries. *)
Definition create_validation (target : string) (args : option (gmap string dict)) : result unit :=
  match args with
  | None => raise TypeError
  | Some args =>
      if negb (has_key args "using") then raise UsingClauseRequired
      else
        let* args := item args "using" in
        if negb (has_key args "question_column") && negb (has_key args "prompt_template")
        then raise PromptSourceRequired
        else if has_key args "prompt_template" && has_key args "question_column"
        then raise PromptSourceConflict
        else ret ()
  end.

Definition create (env : Env) (target : string) (args : gmap string dict) : result Env :=
  let* args := item args "using" in
  let args := <["target" := JStr target]> args in
  ret {| model_storage := <["args" := args]> (model_storage env);
          connection_args := connection_args env;
          env_api_key := env_api_key env;
          config := config env |}.

(** [_get_api_key] *)
Definition _get_api_key (env : Env) (args : dict) : result json :=
  if has_key args "api_key" then item args "api_key"
  else if has_key (connection_args env) "api_key" then item (connection_args env) "api_key"
  else match env_api_key env with
       | Some api_key => ret (JStr api_key)
       | None =>
           let openai_cfg := default ∅ (config env !! "openai") in
           if has_key openai_cfg "api_key" then item openai_cfg "api_key"
           else raise MissingApiKey
       end.

(** ** The prompt template

    [re.finditer("{{(.*?)}}", s)]: a match starts at the leftmost "{{" that
    is followed, with no newline in between, by "}}", and ends at the first
    such "}}"; the search resumes after the match. *)

Record Match := {
  m_start : Z;
  m_end : Z;
  m_group0 : string
}.

(** The lazy group and the closing braces, [n] characters into the match. *)
Fixpoint lazy_close (n : nat) (s : string) : option nat :=
  if PyStr.startswith "}}" s then Some (n + 2)%nat
  else match s with
       | EmptyString => None
       | String a s' => if decide (a = PyStr.newline) then None else lazy_close (S n) s'
       end.

(** Length of the match that starts at the head of [s], if there is one. *)
Definition match_at (s : string) : option nat :=
  if PyStr.startswith "{{" s then lazy_close 2 (PyStr.drop 2 s) else None.

Fixpoint finditer_go (skip pos : nat) (s : string) : list Match :=
  match s with
  | EmptyString => []
  | String _ s' =>
      match skip with
      | S k => finditer_go k (S pos) s'
      | O =>
          match match_at s with
          | Some len =>
              {| m_start := Z.of_nat pos;
                 m_end := Z.of_nat (pos + len);
                 m_group0 := PyStr.take len s |}
              :: finditer_go (len - 1) (S pos) s'
          | None => finditer_go 0 (S pos) s'
          end
      end
  end.

Definition finditer (s : string) : list Match := finditer_go 0 0 s.

(** Lines 96-110 of [predict]: the literal pieces and the column names. *)
Definition compile_template (base_template : string) : result (list string * list string) :=
  let matches := finditer base_template in
  let* first_span := match head matches with
                     | Some m => ret (m_start m)
                     | None => raise IndexError
                     end in
  let* last_span := match last matches with
                    | Some m => ret (m_end m)
                    | None => raise IndexError
                    end in
  let columns :=
    (λ m, PyStr.remove_char "}" (PyStr.remove_char "{" (m_group0 m))) <$> matches in
  let spans := matches ≫= (λ m, [m_start m; m_end m]) in
  let spans := slice spans 1 (-1) in
  let template :=
    (λ se, PyStr.slice base_template se.1 se.2) <$> zip spans (slice_from spans 1) in
  let template := PyStr.slice base_template 0 first_span :: template in
  let template := template ++ [PyStr.slice_from base_template last_span] in
  ret (template, columns).

(** ** Data frames *)

(** A frame has a number of rows and columns of that many cells, which
    are labelled by text, as the columns of a query result are.  Labels of
    other kinds are told apart for [update] only. *)
Record DataFrame := {
  nrows : nat;
  cols : gmap string (list cell)
}.

(** [df[name]] *)
Definition column (df : DataFrame) (name : string) : result (list cell) :=
  item (cols df) name.

(** [df[key]] for a key taken from the arguments *)
Definition column_of (df : DataFrame) (key : json) : result (list cell) :=
  match key with
  | JStr name => column df name
  | _ => raise (KeyError key)
  end.

(** [key in df.columns] *)
Definition in_columns (df : DataFrame) (key : json) : bool :=
  match key with
  | JStr name => has_key (cols df) name
  | _ => false
  end.

(** [df[name] = series] *)
Definition set_column (name : string) (series : list cell) (df : DataFrame) : DataFrame :=
  {| nrows := nrows df; cols := <[name := series]> (cols df) |}.

(** [df[name] = scalar] *)
Definition fill_column (name : string) (scalar : cell) (df : DataFrame) : DataFrame :=
  set_column name (replicate (nrows df) scalar) df.

(** [series.apply(f)] *)
Definition series_apply (f : cell → result cell) (series : list cell) : result (list cell) :=
  for_each f series.

(** [a + b] on two columns of one frame, [a] a column of objects, as the
    prompt column is.  The pairs are added in their order; when that
    raises [TypeError], the pairs that hold no missing value are added
    again, and the rows of the others are given NaN. *)
Definition series_add (a b : list cell) : result (list cell) :=
  match for_each (λ xy, add xy.1 xy.2) (zip a b) with
  | inl TypeError =>
      for_each (λ xy, if isna xy.1 || isna xy.2 then inr CNaN else add xy.1 xy.2) (zip a b)
  | direct => direct
  end.

(** Lines 113-119 of [predict], from index [i] on.  The frame is updated in
    place, so it is returned also when the loop raises. *)
Fixpoint render (template columns : list string) (i : nat) (df : DataFrame)
  : result unit * DataFrame :=
  match template with
  | [] => (inr (), df)
  | atom :: template' =>
      let prompt :=
        match columns !! i with
        | Some name =>
            let* col := column df name in
            let* cur := column df "__mdb_prompt" in
            let* cur := series_apply (λ x, add x (CStr atom)) cur in
            series_add cur col
        | None =>
            let* cur := column df "__mdb_prompt" in
            series_apply (λ x, add x (CStr atom)) cur
        end in
      match prompt with
      | inl e => (inl e, df)
      | inr prompt => render template' columns (S i) (set_column "__mdb_prompt" prompt df)
      end
  end.

Definition nl : string := String PyStr.newline "".

(** Lines 91-128 of [predict]: the prompts, and the frame as it is left. *)
Definition build_prompts (args pred_args : dict) (df : DataFrame)
  : result (list cell) * DataFrame :=
  if truthy (get args "prompt_template" (JBool false)) then
    let compiled :=
      let* base_template := (if truthy (get pred_args "prompt_template" (JBool false))
                             then item pred_args "prompt_template"
                             else item args "prompt_template") in
      match base_template with
      | JStr s => compile_template s
      | _ => raise TypeError
      end in
    match compiled with
    | inl e => (inl e, df)
    | inr (template, columns) =>
        let df := fill_column "__mdb_prompt" (CStr "") df in
        match render template columns 0 df with
        | (inl e, df) => (inl e, df)
        | (inr _, df) => (column df "__mdb_prompt", df)
        end
    end
  else if truthy (get args "context_column" (JBool false)) then
    (let* context_column := item args "context_column" in
     let* contexts := column_of df context_column in
     let* contexts := for_each str contexts in
     let* question_column := item args "question_column" in
     let* questions := column_of df question_column in
     let* questions := for_each str questions in
     ret ((λ cq, CStr ("Context: " +:+ cq.1 +:+ nl +:+ "Question: " +:+ cq.2 +:+ nl +:+ "Answer: "))
             <$> zip contexts questions),
     df)
  else
    (let* question_column := item args "question_column" in
     let* questions := column_of df question_column in
     let* questions := for_each str questions in
     ret (CStr <$> questions),
     df).

(** ** The completion service *)

(** The arguments of [openai.Completion.create]. *)
Record Request := {
  model : json;
  prompt : list cell;
  max_tokens : json;
  temperature : json;
  api_key : json;
  organization : json
}.

Record Choice := {
  text : string
}.

Record Usage := {
  prompt_tokens : Z;
  completion_tokens : Z;
  total_tokens : Z
}.

(** The response of the service: one choice per prompt, and the tokens
    the request used. *)
Record Completion := {
  choices : list Choice;
  usage : Usage
}.

(** [_tidy]; a response of [None] has no ['choices']. *)
Definition _tidy (comp : option Completion) : result (list string) :=
  match comp with
  | None => raise TypeError
  | Some comp => ret ((λ c, PyStr.strip "" (PyStr.strip nl (text c))) <$> choices comp)
  end.

(** Lines 171-178 of [_completion]: the largest batch the service takes,
    read from the message of its rejection. *)
Definition discover_max_batch_size (self : OpenAIHandler) (e : string) : result Z :=
  if PyStr.contains "you can currently request up to at most a total of" e then
    let pattern := "a total of" in
    let rest := PyStr.slice_from e (PyStr.find pattern e + Z.of_nat (String.length pattern)) in
    let* piece := match head (PyStr.split ")." rest) with
                  | Some piece => ret piece
                  | None => raise IndexError
                  end in
    match PyStr.int piece with
    | Some n => ret n
    | None => raise ValueError
    end
  else ret (max_batch_size self).

(** [math.ceil(n / max_batch_size)] as the bound of a [range].  The
    quotient of the two integers is a float, the nearest one to the exact
    quotient.  For a list of fewer than 2^53 prompts (a longer one does not
    fit in memory, and is not modelled) the ceiling of that float is the
    ceiling of the exact quotient, with one exception: a quotient of at
    most 2^-1075, half the smallest positive float, is rounded to 0.0. *)
Definition batch_count (n : nat) (max_batch_size : Z) : result nat :=
  if max_batch_size =? 0 then raise ZeroDivisionError
  else if Z.of_nat n * 2 ^ 1075 <=? max_batch_size then ret 0%nat
  else ret (Z.to_nat (- ((- Z.of_nat n) / max_batch_size))).

(** The slices [prompts[i * B:(i + 1) * B]] for [i] in the range. *)
Definition batches (prompts : list cell) (max_batch_size : Z) : result (list (list cell)) :=
  let* count := batch_count (length prompts) max_batch_size in
  ret ((λ i : nat, slice prompts (Z.of_nat i * max_batch_size)
                      ((Z.of_nat i + 1) * max_batch_size)) <$> seq 0 count).

(** [completion['usage'][field] += partial['usage'][field]] for the three fields *)
Definition add_usage (u v : Usage) : Usage :=
  {| prompt_tokens := prompt_tokens u + prompt_tokens v;
     completion_tokens := completion_tokens u + completion_tokens v;
     total_tokens := total_tokens u + total_tokens v |}.

(** Lines 189-194: how the sequential loop folds a batch into the
    response so far.  A response is a non-empty dictionary, so
    [not completion] holds only of [None]. *)
Definition merge_sequential (completion : option Completion) (partial : Completion) : Completion :=
  match completion with
  | None => partial
  | Some completion =>
      {| choices := choices completion ++ choices partial;
         usage := add_usage (usage completion) (usage partial) |}
  end.

(** Lines 210-213: how the loop over the promises folds a batch in. *)
Definition merge_parallel (completion : option Completion) (partial : Completion) : Completion :=
  match completion with
  | None => partial
  | Some completion =>
      {| choices := choices completion ++ choices partial;
         usage := usage completion |}
  end.

Section Service.

(** The state of the remote service, and [openai.Completion.create] under
    [retry_with_exponential_backoff]: one call, retries included, returns a
    response or raises, and moves the service on. *)
Context {Svc : Type}.
Variable completion_create : Request → Svc → result Completion * Svc.

Definition _submit_completion (model_name : json) (prompts : list cell)
    (max_tokens temperature api_key : json) (args : dict) (st : Svc)
  : result Completion * Svc :=
  completion_create
    {| model := model_name;
       prompt := prompts;
       max_tokens := max_tokens;
       temperature := temperature;
       api_key := api_key;
       organization := get args "api_organization" JNull |} st.

(** Lines 181-194: the batches one after the other. *)
Fixpoint run_sequential (submit : list cell → Svc → result Completion * Svc)
    (todo : list (list cell)) (completion : option Completion) (st : Svc)
  : result (option Completion) * Svc :=
  match todo with
  | [] => (inr completion, st)
  | batch :: todo' =>
      match submit batch st with
      | (inl e, st) => (inl e, st)
      | (inr partial, st) =>
          run_sequential submit todo' (Some (merge_sequential completion partial)) st
      end
  end.

(** A worker of the pool serves task [task.1]: the outcome, a response or
    an exception, is kept in the task's future. *)
Definition run_task (submit : list cell → Svc → result Completion * Svc)
    (pool : gmap nat (result Completion) * Svc) (task : nat * list cell)
  : gmap nat (result Completion) * Svc :=
  let (out, st) := submit task.2 pool.2 in
  (<[task.1 := out]> pool.1, st).

(** Lines 197-207: the thread pool.  Every submitted task is served once,
    in an order the code does not control: each element of [picks] chooses
    which of the pending tasks the service sees next, and when [picks] runs
    out the rest are served in submission order.  Leaving the [with] block
    waits for all of them. *)
Fixpoint run_pool (submit : list cell → Svc → result Completion * Svc)
    (picks : list nat) (pending : list (nat * list cell))
    (pool : gmap nat (result Completion) * Svc)
  : gmap nat (result Completion) * Svc :=
  match picks with
  | [] => foldl (run_task submit) pool pending
  | pick :: picks' =>
      let i := (pick `mod` length pending)%nat in
      match pending !! i with
      | Some task => run_pool submit picks' (delete i pending) (run_task submit pool task)
      | None => pool
      end
  end.

(** Lines 208-213: the results of the promises, in the order of
    submission.  [None] is a call that does not return: [result()] on a
    future no worker has finished. *)
Fixpoint gather (futures : gmap nat (result Completion)) (promises : list nat)
    (completion : option Completion) : option (result (option Completion)) :=
  match promises with
  | [] => Some (inr completion)
  | p :: promises' =>
      match futures !! p with
      | None => None
      | Some (inl e) => Some (inl e)
      | Some (inr partial) => gather futures promises' (Some (merge_parallel completion partial))
      end
  end.

(** Lines 180-213: the response assembled from the batches. *)
Definition dispatch (submit : list cell → Svc → result Completion * Svc)
    (prompts : list cell) (max_batch_size : Z) (parallel : bool) (picks : list nat) (st : Svc)
  : option (result (option Completion)) * Svc :=
  match batches prompts max_batch_size with
  | inl e => (Some (inl e), st)
  | inr todo =>
      if negb parallel then
        let (out, st) := run_sequential submit todo None st in (Some out, st)
      else
        let (futures, st) := run_pool submit picks (imap (λ i b, (i, b)) todo) (∅, st) in
        (gather futures (seq 0 (length todo)) None, st)
  end.

(** [_completion] *)
Definition _completion (self : OpenAIHandler) (model_name : json) (prompts : list cell)
    (max_tokens temperature api_key : json) (args : dict) (parallel : bool)
    (picks : list nat) (st : Svc)
  : option (result (list string)) * Svc :=
  let submit prompts := _submit_completion model_name prompts max_tokens temperature api_key args in
  match submit prompts st with
  | (inr completion, st) => (Some (_tidy (Some completion)), st)
  | (inl (InvalidRequestError e), st) =>
      match discover_max_batch_size self e with
      | inl e => (Some (inl e), st)
      | inr max_batch_size =>
          match dispatch submit prompts max_batch_size parallel picks st with
          | (Some (inr completion), st) => (Some (_tidy completion), st)
          | (Some (inl e), st) => (Some (inl e), st)
          | (None, st) => (None, st)
          end
      end
  | (inl e, st) => (Some (inl e), st)
  end.

(** The one-column frame [pd.DataFrame(completion, columns=[label])]. *)
Record PredFrame := {
  label : json;
  rows : list string
}.

(** Lines 78-89 of [predict]: the prediction parameters, the stored
    arguments, and the model name, temperature and token bound. *)
Definition predict_setup (self : OpenAIHandler) (env : Env) (df : DataFrame)
    (args : option (gmap string dict)) : result (dict * dict * json * json * json) :=
  let* pred_args := match args with
                    | Some args =>
                        if bool_decide (args = ∅) then ret ∅ else item args "predict_params"
                    | None => ret ∅
                    end in
  let* args := match model_storage env !! "args" with
               | Some args => ret args
               | None => raise AttributeError
               end in
  let* _ := (if truthy (get args "question_column" (JBool false))
             then let* question_column := item args "question_column" in
                  if negb (in_columns df question_column)
                  then raise (QuestionColumnExpected question_column) else ret ()
             else ret ()) in
  let* _ := (if truthy (get args "context_column" (JBool false))
             then let* context_column := item args "context_column" in
                  if negb (in_columns df context_column)
                  then raise (ContextColumnExpected context_column) else ret ()
             else ret ()) in
  let model_name := get args "model_name" (JStr (default_model self)) in
  let* temperature := py_max (JFloat 0) (get args "temperature" (JFloat 0)) in
  let* temperature := py_min (JFloat 1) temperature in
  let max_tokens :=
    get pred_args "max_tokens" (get args "max_tokens" (JInt (default_max_tokens self))) in
  ret (pred_args, args, model_name, temperature, max_tokens).

(** [predict]: the frame of completions, the caller's frame as the call
    leaves it, and the service. *)
Definition predict (self : OpenAIHandler) (env : Env) (df : DataFrame)
    (args : option (gmap string dict)) (picks : list nat) (st : Svc)
  : option (result PredFrame) * DataFrame * Svc :=
  match predict_setup self env df args with
  | inl e => (Some (inl e), df, st)
  | inr (pred_args, args, model_name, temperature, max_tokens) =>
      match build_prompts args pred_args df with
      | (inl e, df) => (Some (inl e), df, st)
      | (inr prompts, df) =>
          match _get_api_key env args with
          | inl e => (Some (inl e), df, st)
          | inr api_key =>
              match _completion self model_name prompts max_tokens temperature api_key args
                      true picks st with
              | (Some (inr completion), st) =>
                  (Some (let* target := item args "target" in
                         ret {| label := target; rows := completion |}), df, st)
              | (Some (inl e), st) => (Some (inl e), df, st)
              | (None, st) => (None, df, st)
              end
          end
      end
  end.

End Service.

(** ** What it means to strip characters

    [stripped chars raw t]: [t] is [raw] without its longest prefix and
    suffix made of characters of [chars]. *)

Fixpoint all_in (chars s : string) : bool :=
  match s with
  | EmptyString => true
  | String a s' => PyStr.mem a chars && all_in chars s'
  end.

Definition first_char (s : string) : option ascii :=
  match s with
  | EmptyString => None
  | String a _ => Some a
  end.

Fixpoint last_char (s : string) : option ascii :=
  match s with
  | EmptyString => None
  | String a EmptyString => Some a
  | String _ s' => last_char s'
  end.

Definition outside (chars : string) (c : option ascii) : Prop :=
  match c with
  | Some a => PyStr.mem a chars = false
  | None => True
  end.

Definition stripped (chars raw t : string) : Prop :=
  ∃ pre post,
    raw = pre +:+ t +:+ post ∧ all_in chars pre = true ∧ all_in chars post = true ∧
    outside chars (first_char t) ∧ outside chars (last_char t).

(** ** [update]

    The first test of [update] reads the labels of the columns of its
    frame and looks up the set [{'prompt', 'completion'}] among them,
    which [in] does with the frozen set of the same members.  A label in
    pandas is any hashable value: text, as in the frames of the model, but
    also an integer or a frozen set. *)
Inductive pyobj :=
  | OStr (s : string)
  | OInt (z : Z)
  | OFrozenSet (members : gset string).

(** [x == y]: values of different kinds are never equal. *)
Definition obj_eqb (x y : pyobj) : bool :=
  match x, y with
  | OStr a, OStr b => bool_decide (a = b)
  | OInt a, OInt b => bool_decide (a = b)
  | OFrozenSet a, OFrozenSet b => bool_decide (a = b)
  | _, _ => false
  end.

(** [x in set(elements)] *)
Definition obj_in (x : pyobj) (elements : list pyobj) : bool :=
  existsb (obj_eqb x) elements.

(** [df.columns] for a frame of the model, whose labels are text. *)
Definition column_set (df : DataFrame) : list pyobj :=
  OStr <$> elements (dom (cols df)).

Inductive update_exn :=
  | PromptCompletionColumnsRequired.

(** [update], given the labels [df.columns] of its frame, which is all the
    test reads; [fine_tune] stands for lines 238-298, the work on files and
    on the remote service that follows the test. *)
Definition update {A : Type} (columns : list pyobj) (fine_tune : update_exn + A)
  : update_exn + A :=
  if negb (obj_in (OFrozenSet {[ "prompt"; "completion" ]}) columns)
  then inl PromptCompletionColumnsRequired
  else fine_tune.

(** ** Notions used to state the properties *)

(** [out] is what a submission of [batch] came back with, in some state of
    the service. *)
Definition served {Svc : Type} (submit : list cell → Svc → result Completion * Svc)
    (batch : list cell) (out : result Completion) : Prop :=
  ∃ st, (submit batch st).1 = out.

Definition choices_of (completion : option Completion) : list Choice :=
  match completion with
  | Some completion => choices completion
  | None => []
  end.

(** The loop over the promises when every one of them holds a response. *)
Definition fold_parallel (completion : option Completion) (partials : list Completion)
  : option Completion :=
  foldl (λ completion partial, Some (merge_parallel completion partial)) completion partials.

(** A service that also keeps the requests it was sent, in the order in
    which it saw them. *)
Definition recording {Svc : Type} (completion_create : Request → Svc → result Completion * Svc)
    (r : Request) (st : Svc * list Request) : result Completion * (Svc * list Request) :=
  let (out, s) := completion_create r st.1 in
  (out, (s, st.2 ++ [r])).

(** The batches submitted one after the other, every one of them
    whatever the others come back with: the outcomes, and the service as
    the last submission leaves it. *)
Fixpoint submit_all {Svc : Type} (submit : list cell → Svc → result Completion * Svc)
    (todo : list (list cell)) (st : Svc) : list (result Completion) * Svc :=
  match todo with
  | [] => ([], st)
  | batch :: todo' =>
      let (out, st) := submit batch st in
      let (outs, st) := submit_all submit todo' st in
      (out :: outs, st)
  end.

(** What a loop over the batches ends with when the outcomes of the
    submissions are given: the first exception, or all responses merged. *)
Fixpoint fold_outcomes (merge : option Completion → Completion → Completion)
    (completion : option Completion) (outcomes : list (result Completion))
  : result (option Completion) :=
  match outcomes with
  | [] => inr completion
  | inl e :: _ => inl e
  | inr partial :: outcomes' => fold_outcomes merge (Some (merge completion partial)) outcomes'
  end.

(** Two assembled responses with the same choices. *)
Definition same_choices (a b : option Completion) : Prop :=
  match a, b with
  | None, None => True
  | Some x, Some y => choices x = choices y
  | _, _ => False
  end.

(** The text a row is given by the loop over the pieces of a template:
    each piece, followed by the next value of the row while values are
    left. *)
Fixpoint weave (template values : list string) : string :=
  match template with
  | [] => ""
  | atom :: template' =>
      match values with
      | value :: values' => atom +:+ value +:+ weave template' values'
      | [] => atom +:+ weave template' []
      end
  end.

(** The values of row [i] in columns given by their data. *)
Definition row_of (i : nat) (datas : list (list string)) : list string :=
  (λ data, default "" (data !! i)) <$> datas.

(** ** Sample inputs *)

Definition sample_completion : Completion :=
  {| choices := [ {| text := nl +:+ nl +:+ "Paris" +:+ nl |}; {| text := " 42 " |} ];
     usage := {| prompt_tokens := 7; completion_tokens := 3; total_tokens := 10 |} |}.

Definition ada_template : string := "Hello {{name}}, you are {{age}}.".

Definition ada_args : dict :=
  {[ "prompt_template" := JStr ada_template; "target" := JStr "greeting" ]}.

Definition ada_frame : DataFrame :=
  {| nrows := 1; cols := {[ "name" := [CStr "Ada"]; "age" := [CStr "30"] ]} |}.

(** The same row with the age held as a number. *)
Definition ada_frame_int : DataFrame :=
  {| nrows := 1; cols := {[ "name" := [CStr "Ada"]; "age" := [CInt 30] ]} |}.

Definition question_args : dict :=
  {[ "question_column" := JStr "age"; "target" := JStr "answer" ]}.

Definition context_args : dict :=
  {[ "question_column" := JStr "age"; "context_column" := JStr "name";
     "target" := JStr "answer" ]}.

Definition both_using : dict :=
  {[ "prompt_template" := JStr ada_template; "question_column" := JStr "age" ]}.

(** A service that takes at most [limit] prompts in a request and says
    so in the words the handler looks for, refuses the prompt [refused] if
    there is one, and otherwise answers a prompt with its text between
    two newlines; its state counts the requests. *)
Definition limit_message (limit : nat) : string :=
  "Too many prompts (you can currently request up to at most a total of "
  +:+ pretty limit +:+ "). Please send fewer prompts.".


Definition is_refused (refused : option string) (p : cell) : bool :=
  match refused, p with
  | Some r, CStr s => bool_decide (s = r)
  | _, _ => false
  end.

Definition shown (p : cell) : string :=
  match str p with
  | inr s => s
  | inl _ => ""
  end.

Definition echo (limit : nat) (refused : option string) (r : Request) (count : nat)
  : result Completion * nat :=
  if (limit <? length (prompt r))%nat
  then (inl (InvalidRequestError (limit_message limit)), S count)
  else if existsb (is_refused refused) (prompt r)
  then (inl (ServiceError "refused"), S count)
  else (inr {| choices := (λ p, {| text := nl +:+ shown p +:+ nl |}) <$> prompt r;
               usage := {| prompt_tokens := Z.of_nat (length (prompt r));
                           completion_tokens := Z.of_nat count;
                           total_tokens := Z.of_nat (length (prompt r)) + Z.of_nat count |} |},
        S count).

Definition echoed (p : cell) (raw : string) : Prop := raw = nl +:+ shown p +:+ nl.

(** A service that answers from a script, whatever it is asked. *)
Definition scripted (r : Request) (script : list (result Completion))
  : result Completion * list (result Completion) :=
  match script with
  | [] => (inl (ServiceError "nothing left to say"), [])
  | out :: script' => (out, script')
  end.

Definition first_batch : Completion :=
  {| choices := [ {| text := "one" |} ];
     usage := {| prompt_tokens := 10; completion_tokens := 5; total_tokens := 15 |} |}.

Definition second_batch : Completion :=
  {| choices := [ {| text := "two" |} ];
     usage := {| prompt_tokens := 7; completion_tokens := 3; total_tokens := 10 |} |}.

Definition letters : list cell := [CStr "a"; CStr "b"; CStr "c"; CStr "d"; CStr "e"].

(** Surroundings in which the model of the Ada template was created. *)
Definition ada_env : Env :=
  {| model_storage := {[ "args" := ada_args ]};
     connection_args := {[ "api_key" := JStr "key" ]};
     env_api_key := None;
     config := ∅ |}.

(** A frame laid out for fine-tuning. *)
Definition tuning_frame : DataFrame :=
  {| nrows := 1;
     cols := {[ "prompt" := [CStr "2 + 2 ="]; "completion" := [CStr " 4"] ]} |}.

Definition template_using : dict :=
  {[ "prompt_template" := JStr ada_template; "context_column" := JStr "name" ]}.

Definition empty_template_using : dict := {[ "prompt_template" := JStr "" ]}.

Definition bare_env : Env :=
  {| model_storage := ∅; connection_args := ∅; env_api_key := None; config := ∅ |}.

(** A frame with cells of several types, and the surroundings of a
    question model and of a question-and-context model over it. *)
Definition mixed_frame : DataFrame :=
  {| nrows := 3;
     cols := {[ "age" := [CInt 30; CStr "old"; CNaN];
                "name" := [CStr "Ada"; CNone; CBool true] ]} |}.

Definition question_env : Env :=
  {| model_storage := {[ "args" := question_args ]};
     connection_args := {[ "api_key" := JStr "key" ]};
     env_api_key := None;
     config := ∅ |}.

Definition context_env : Env :=
  {| model_storage := {[ "args" := context_args ]};
     connection_args := {[ "api_key" := JStr "key" ]};
     env_api_key := None;
     config := ∅ |}.





(** The surroundings of the Ada template, with no API key anywhere. *)
Definition keyless_env : Env :=
  {| model_storage := {[ "args" := ada_args ]};
     connection_args := ∅;
     env_api_key := None;
     config := ∅ |}.

(** * Properties *)

(** ** The operations of Python on sample values *)

Example find_found : PyStr.find "lo" "hello" = 3.
Proof. reflexivity. Qed.

Example find_missing : PyStr.find "xy" "hello" = -1.
Proof. reflexivity. Qed.

Example split_first_piece : PyStr.split ")." " 20). Please" = [" 20"; " Please"].
Proof. reflexivity. Qed.

Example split_at_end : PyStr.split ")." "a)." = ["a"; ""].
Proof. reflexivity. Qed.

Example int_spaces : PyStr.int " 20" = Some 20.
Proof. reflexivity. Qed.

Example int_signed : PyStr.int "-1_000 " = Some (-1000).
Proof. reflexivity. Qed.

Example int_rejects : PyStr.int "2 0" = None ∧ PyStr.int "" = None ∧ PyStr.int "7_" = None.
Proof. repeat split; reflexivity. Qed.

(** The no-break space and the next-line character are passed over, the
    separator 28 is not. *)
Example int_blanks :
  PyStr.int (String "160" "5") = Some 5 ∧ PyStr.int (String "133" " 5 ") = Some 5 ∧
  PyStr.int (String "028" "5") = None.
Proof. repeat split; reflexivity. Qed.

(** A literal of more digits than the limit is refused, whatever it
    is. *)
Example int_digit_limit (ds : string) :
  (PyStr.max_str_digits < PyStr.digit_count ds)%nat → PyStr.literal ds = None.
Proof.
  intros Hmany. unfold PyStr.literal.
  by destruct (Nat.leb_spec (PyStr.digit_count ds) PyStr.max_str_digits) as [?|_]; [lia|].
Qed.

Example str_cells :
  str CNone = inr "None" ∧ str CNaN = inr "nan" ∧ str (CBool true) = inr "True" ∧
  str (CInt (-7)) = inr "-7" ∧ str (CStr "None") = inr "None".
Proof. repeat split; reflexivity. Qed.

Example add_cells :
  add (CStr "a") (CStr "b") = inr (CStr "ab") ∧ add (CStr "a") (CInt 1) = inl TypeError ∧
  add (CStr "a") CNone = inl TypeError ∧ add CNaN (CStr "a") = inl TypeError ∧
  add CNaN (CInt 1) = inr CNaN ∧ add CNaN (CInt (2 ^ 1024)) = inl OverflowError.
Proof. repeat split; vm_compute; reflexivity. Qed.

(** A missing value on the right is masked, a number is not. *)
Example series_add_masks :
  series_add [CStr "a"; CStr "b"] [CStr "x"; CNone] = inr [CStr "ax"; CNaN] ∧
  series_add [CStr "a"; CStr "b"] [CInt 1; CNone] = inl TypeError.
Proof. split; reflexivity. Qed.

Example strip_newlines_only :
  PyStr.strip nl (nl +:+ " a" +:+ nl +:+ "b " +:+ nl +:+ nl) = " a" +:+ nl +:+ "b ".
Proof. reflexivity. Qed.

Example slice_negative_bound : slice [1; 2; 3; 4] 1 (-1) = [2; 3].
Proof. reflexivity. Qed.

Example slice_past_the_end : slice [1; 2; 3; 4] 2 10 = [3; 4] ∧ slice [1; 2; 3; 4] 6 8 = [].
Proof. split; reflexivity. Qed.

Example finditer_spans :
  finditer "Hello {{name}}, you are {{age}}."
  = [ {| m_start := 6; m_end := 14; m_group0 := "{{name}}" |};
      {| m_start := 24; m_end := 31; m_group0 := "{{age}}" |} ].
Proof. reflexivity. Qed.

(** The group is lazy, and does not run over a newline. *)
Example finditer_lazy :
  finditer "{{a}}}}" = [ {| m_start := 0; m_end := 5; m_group0 := "{{a}}" |} ] ∧
  finditer ("{{a" +:+ nl +:+ "}} {{b}}") = [ {| m_start := 7; m_end := 12; m_group0 := "{{b}}" |} ].
Proof. split; reflexivity. Qed.

Example template_one_placeholder : compile_template "{{text}}?" = inr ([""; "?"], ["text"]).
Proof. reflexivity. Qed.

Example template_no_placeholder : compile_template "Hello" = inl IndexError.
Proof. reflexivity. Qed.

Example batch_count_rounds_up :
  batch_count 5 2 = inr 3%nat ∧ batch_count 4 2 = inr 2%nat ∧ batch_count 0 2 = inr 0%nat ∧
  batch_count 5 0 = inl ZeroDivisionError ∧ batch_count 5 (-2) = inr 0%nat.
Proof. repeat split; reflexivity. Qed.

(** From N * 2^1075 on the quotient is rounded to 0.0. *)
Example batch_count_underflow :
  batch_count 1 (2 ^ 1075 - 1) = inr 1%nat ∧ batch_count 1 (2 ^ 1075) = inr 0%nat ∧
  batch_count 5 (10 ^ 400) = inr 0%nat.
Proof. repeat split; vm_compute; reflexivity. Qed.

Example batches_of_two :
  batches letters 2 = inr [[CStr "a"; CStr "b"]; [CStr "c"; CStr "d"]; [CStr "e"]].
Proof. reflexivity. Qed.

(** ** Strings *)

Lemma app_empty_l (s : string) : "" +:+ s = s.
Proof. reflexivity. Qed.

Lemma app_String (a : ascii) (s t : string) : String a s +:+ t = String a (s +:+ t).
Proof. reflexivity. Qed.

Lemma app_empty_r (s : string) : s +:+ "" = s.
Proof. induction s as [|a s IH]; [done|]. by rewrite app_String, IH. Qed.

Lemma app_assoc' (s t u : string) : (s +:+ t) +:+ u = s +:+ t +:+ u.
Proof. induction s as [|a s IH]; [done|]. by rewrite !app_String, IH. Qed.

Lemma length_app (s t : string) :
  String.length (s +:+ t) = (String.length s + String.length t)%nat.
Proof. induction s as [|a s IH]; [done|]. rewrite app_String. simpl. by rewrite IH. Qed.

Lemma drop_app_length (s t : string) : PyStr.drop (String.length s) (s +:+ t) = t.
Proof. induction s as [|a s IH]; [by destruct t|]. by rewrite app_String. Qed.

Lemma lstrip_empty (s : string) : PyStr.lstrip "" s = s.
Proof. by destruct s. Qed.

Lemma rstrip_empty (s : string) : PyStr.rstrip "" s = s.
Proof.
  induction s as [|a s IH]; [done|].
  simpl. rewrite IH. by destruct s.
Qed.

(** [s.strip('')] returns [s]. *)
Lemma strip_empty (s : string) : PyStr.strip "" s = s.
Proof. unfold PyStr.strip. by rewrite lstrip_empty, rstrip_empty. Qed.

Lemma lstrip_spec (chars s : string) :
  ∃ pre, s = pre +:+ PyStr.lstrip chars s ∧ all_in chars pre = true ∧
         outside chars (first_char (PyStr.lstrip chars s)).
Proof.
  induction s as [|a s (pre & Hs & Hpre & Hout)].
  - by exists "".
  - simpl. destruct (PyStr.mem a chars) eqn:Ha.
    + exists (String a pre). rewrite app_String, <- Hs. simpl. by rewrite Ha, Hpre.
    + by exists "".
Qed.

Lemma rstrip_spec (chars s : string) :
  ∃ post, s = PyStr.rstrip chars s +:+ post ∧ all_in chars post = true ∧
          outside chars (last_char (PyStr.rstrip chars s)) ∧
          (PyStr.rstrip chars s = "" ∨ first_char (PyStr.rstrip chars s) = first_char s).
Proof.
  induction s as [|a s (post & Hs & Hpost & Hout & Hfirst)].
  - exists "". repeat split; auto.
  - simpl. destruct (PyStr.rstrip chars s) as [|b r] eqn:Hr.
    + destruct (PyStr.mem a chars) eqn:Ha.
      * exists (String a post). rewrite app_empty_l in *. subst s.
        simpl. rewrite Ha, Hpost. by auto.
      * exists post. rewrite app_empty_l in Hs. subst s. by auto.
    + exists post. rewrite app_String, <- Hs. repeat split; auto.
Qed.

Lemma strip_spec (chars s : string) : stripped chars s (PyStr.strip chars s).
Proof.
  unfold PyStr.strip.
  destruct (lstrip_spec chars s) as (pre & Hs & Hpre & Hout).
  destruct (rstrip_spec chars (PyStr.lstrip chars s)) as (post & Hl & Hpost & Hlast & Hfirst).
  exists pre, post. repeat split; auto.
  - by rewrite <- Hl.
  - destruct Hfirst as [-> | ->]; done.
Qed.

(** ** [_tidy] *)

(** C10: every text [_tidy] hands back is the text of the corresponding
    choice without its leading and trailing newline characters (the
    second [strip('')] changes nothing), so it differs from the service's
    text whenever that begins or ends with a newline. *)
Theorem tidy_strips_newlines :
  (∀ comp : Completion,
     ∃ out, _tidy (Some comp) = inr out ∧
            out = (λ c, PyStr.strip nl (text c)) <$> choices comp ∧
            Forall2 (λ c t, stripped nl (text c) t) (choices comp) out) ∧
  (∀ s, PyStr.strip "" s = s) ∧
  _tidy (Some sample_completion) = inr ["Paris"; " 42 "] ∧
  _tidy (Some sample_completion) ≠ inr (text <$> choices sample_completion).
Proof.
  split; [|split; [exact strip_empty|split; [reflexivity|discriminate]]].
  intros comp. eexists. split; [reflexivity|]. split.
  - apply list_fmap_ext. intros _ c _. apply strip_empty.
  - apply Forall2_fmap_r, Forall_Forall2_diag, Forall_forall.
    intros c _. unfold compose. rewrite strip_empty. apply strip_spec.
Qed.

(** ** [create_validation] *)

Lemma has_key_true {V : Type} (d : gmap string V) (k : string) :
  has_key d k = true ↔ is_Some (d !! k).
Proof. unfold has_key. apply bool_decide_eq_true. Qed.

Lemma has_key_false {V : Type} (d : gmap string V) (k : string) :
  has_key d k = false ↔ d !! k = None.
Proof. unfold has_key. rewrite bool_decide_eq_false. symmetry. apply eq_None_not_Some. Qed.

(** C7: with a [USING] clause that holds both [prompt_template] and
    [question_column], or neither of them, validation raises; it returns
    only when exactly one of the two is present.  Validation is a function
    of the arguments alone: it has no frame to build prompts from and no
    service to call. *)
Theorem create_validation_exclusive (target : string) (args : gmap string dict) (clause : dict) :
  args !! "using" = Some clause →
  (is_Some (clause !! "prompt_template") → is_Some (clause !! "question_column") →
     create_validation target (Some args) = inl PromptSourceConflict) ∧
  (clause !! "prompt_template" = None → clause !! "question_column" = None →
     create_validation target (Some args) = inl PromptSourceRequired) ∧
  (create_validation target (Some args) = inr () ↔
     (is_Some (clause !! "prompt_template") ∧ clause !! "question_column" = None) ∨
     (clause !! "prompt_template" = None ∧ is_Some (clause !! "question_column"))).
Proof.
  intros Husing. unfold create_validation, item.
  assert (has_key args "using" = true) as -> by (apply has_key_true; eauto).
  rewrite Husing. simpl.
  destruct (has_key clause "question_column") eqn:Hq, (has_key clause "prompt_template") eqn:Hp;
    simpl;
    repeat match goal with
           | H : has_key _ _ = true |- _ => apply has_key_true in H as [? H]
           | H : has_key _ _ = false |- _ => apply has_key_false in H
           end;
    rewrite Hq, Hp;
    repeat split; intros; try done; eauto;
    try match goal with H : is_Some None |- _ => by destruct H end.
  - destruct H as [[_ [=]]|[[=] _]].
  - destruct H as [[[? [=]] _]|[_ [? [=]]]].
Qed.

Lemma create_validation_exclusive_witness :
  create_validation "greeting" (Some {[ "using" := both_using ]}) = inl PromptSourceConflict.
Proof.
  apply (create_validation_exclusive "greeting" {[ "using" := both_using ]} both_using).
  - reflexivity.
  - vm_compute. eauto.
  - vm_compute. eauto.
Defined.

(** ** The prompts of [predict] *)

(** C6: the template "Hello {{name}}, you are {{age}}." is cut into the
    literals "Hello ", ", you are " and "." and the columns name and age,
    and for the row (Ada, 30) the prompt is "Hello Ada, you are 30.". *)
Theorem template_round_trip :
  compile_template "Hello {{name}}, you are {{age}}."
    = inr (["Hello "; ", you are "; "."], ["name"; "age"]) ∧
  (build_prompts ada_args ∅ ada_frame).1 = inr [CStr "Hello Ada, you are 30."].
Proof. split; vm_compute; reflexivity. Qed.

(** C8, at the input on which the code departs from it: in template mode
    a numeric cell reaches the concatenation as it is and the addition
    raises, whereas both question modes pass the same cell through
    [str]. *)
Theorem template_mode_adds_cells_uncoerced :
  (build_prompts ada_args ∅ ada_frame_int).1 = inl TypeError ∧
  (build_prompts question_args ∅ ada_frame_int).1 = inr [CStr "30"] ∧
  (build_prompts context_args ∅ ada_frame_int).1
    = inr [CStr ("Context: Ada" +:+ nl +:+ "Question: 30" +:+ nl +:+ "Answer: ")].
Proof. repeat split; vm_compute; reflexivity. Qed.

(** ** The batches *)

Lemma slice_nonneg {A : Type} (l : list A) (lo hi : Z) :
  0 ≤ lo → lo ≤ hi →
  slice l lo hi = take (Z.to_nat hi - Z.to_nat lo) (drop (Z.to_nat lo) l).
Proof.
  intros Hlo Hhi. unfold slice, PyStr.clamp_index.
  destruct (Z.ltb_spec lo 0) as [?|_]; [lia|].
  destruct (Z.ltb_spec hi 0) as [?|_]; [lia|].
  destruct (decide (Z.of_nat (length l) ≤ lo)) as [Hge|Hlt].
  - rewrite !drop_ge by lia. by rewrite !take_nil.
  - replace (Z.to_nat (lo `min` Z.of_nat (length l))) with (Z.to_nat lo) by lia.
    destruct (decide (hi ≤ Z.of_nat (length l))) as [Hle|Hgt].
    + f_equal. lia.
    + rewrite !take_ge; [done|rewrite length_drop; lia..].
Qed.

Lemma chunks_concat {A : Type} (size count : nat) (l : list A) :
  (length l ≤ count * size)%nat →
  concat ((λ i : nat, take size (drop (i * size) l)) <$> seq 0 count) = l.
Proof.
  revert l. induction count as [|count IH]; intros l Hlen.
  - destruct l; [done|simpl in Hlen; lia].
  - simpl. rewrite <- fmap_S_seq, <- list_fmap_compose.
    transitivity (take size l ++ drop size l); [|apply take_drop].
    rewrite drop_0. f_equal.
    transitivity (concat ((λ i : nat, take size (drop (i * size) (drop size l))) <$> seq 0 count));
      [|apply IH; rewrite length_drop; lia].
    f_equal. apply list_fmap_ext. intros _ i _. simpl.
    rewrite drop_drop. repeat f_equal; lia.
Qed.

Lemma batch_count_bounds (n : nat) (size : Z) :
  1 ≤ size → n = 0%nat ∨ size < Z.of_nat n * 2 ^ 1075 →
  ∃ count, batch_count n size = inr count ∧
           (Z.of_nat count - 1) * size < Z.of_nat n ≤ Z.of_nat count * size.
Proof.
  intros Hsize Hbound. unfold batch_count.
  destruct (Z.eqb_spec size 0) as [?|_]; [lia|].
  destruct (Z.leb_spec (Z.of_nat n * 2 ^ 1075) size) as [Hunder|_].
  { destruct Hbound as [->|?]; [|lia]. exists 0%nat. split; [done|lia]. }
  eexists. split; [reflexivity|].
  pose proof (Z.div_mod (- Z.of_nat n) size ltac:(lia)) as Hdiv.
  pose proof (Z.mod_pos_bound (- Z.of_nat n) size ltac:(lia)) as Hmod.
  assert ((- Z.of_nat n) `div` size ≤ 0) by (apply Z.div_le_upper_bound; lia).
  rewrite Z2Nat.id by lia. nia.
Qed.

Lemma batches_slices (prompts : list cell) (max_batch_size : Z) :
  1 ≤ max_batch_size →
  prompts = [] ∨ max_batch_size < Z.of_nat (length prompts) * 2 ^ 1075 →
  ∃ todo,
    batches prompts max_batch_size = inr todo ∧
    (∀ (i : nat) batch, todo !! i = Some batch →
       batch = slice prompts (Z.of_nat i * max_batch_size) ((Z.of_nat i + 1) * max_batch_size) ∧
       (0 < length batch)%nat ∧ Z.of_nat (length batch) ≤ max_batch_size) ∧
    concat todo = prompts ∧
    (Z.of_nat (length todo) - 1) * max_batch_size
      < Z.of_nat (length prompts) ≤ Z.of_nat (length todo) * max_batch_size.
Proof.
  intros Hsize Hbound. unfold batches.
  destruct (batch_count_bounds (length prompts) max_batch_size Hsize) as (count & -> & Hlo & Hhi).
  { destruct Hbound as [->|?]; by auto. }
  simpl. eexists. split; [reflexivity|].
  assert (∀ i : nat,
    slice prompts (Z.of_nat i * max_batch_size) ((Z.of_nat i + 1) * max_batch_size)
    = take (Z.to_nat max_batch_size) (drop (i * Z.to_nat max_batch_size) prompts)) as Hslice.
  { intros i. rewrite slice_nonneg by nia. f_equal; [nia|f_equal; nia]. }
  split; [|split].
  - intros i batch Hi. apply list_lookup_fmap_Some in Hi as (j & -> & Hj).
    apply lookup_seq in Hj as [-> Hj]. simpl. split; [done|].
    rewrite Hslice, length_take, length_drop. nia.
  - erewrite list_fmap_ext; [|intros; apply Hslice]. apply chunks_concat. nia.
  - rewrite length_fmap, length_seq. lia.
Qed.

(** Only a batch size of zero makes the division raise. *)
Lemma batches_defined (prompts : list cell) (max_batch_size : Z) :
  max_batch_size ≠ 0 → ∃ todo, batches prompts max_batch_size = inr todo.
Proof.
  intros Hsize. unfold batches, batch_count.
  destruct (Z.eqb_spec max_batch_size 0) as [?|_]; [done|].
  destruct (Z.of_nat (length prompts) * 2 ^ 1075 <=? max_batch_size); by eexists.
Qed.

(** Too large a batch size leaves nothing to submit: the quotient is
    rounded to 0.0. *)
Lemma batches_underflow (prompts : list cell) (max_batch_size : Z) todo :
  Z.of_nat (length prompts) * 2 ^ 1075 ≤ max_batch_size →
  batches prompts max_batch_size = inr todo → todo = [].
Proof.
  unfold batches, batch_count. intros Hsize.
  destruct (Z.eqb_spec max_batch_size 0) as [?|Hne]; [done|].
  destruct (Z.leb_spec (Z.of_nat (length prompts) * 2 ^ 1075) max_batch_size) as [_|?]; [|lia].
  by intros [= <-].
Qed.

(** C2, as the code has it: for a list of N prompts and a batch size B of
    at least one and below N * 2^1075, the batches are the slices
    [prompts[i*B:(i+1)*B]], each of at most B prompts and none empty; put
    end to end they give back the prompts; and their number k is the
    ceiling of N/B, the one k with (k-1)*B < N <= k*B.  The same holds of
    an empty list, which has no batch.  From N * 2^1075 on, the float
    quotient N/B is 0.0 and a list that is not empty is left without a
    batch. *)
Theorem batches_partition (prompts : list cell) (max_batch_size : Z) :
  Z.of_nat (length prompts) < 2 ^ 53 →
  1 ≤ max_batch_size →
  (prompts = [] ∨ max_batch_size < Z.of_nat (length prompts) * 2 ^ 1075 →
   ∃ todo,
     batches prompts max_batch_size = inr todo ∧
     (∀ (i : nat) batch, todo !! i = Some batch →
        batch = slice prompts (Z.of_nat i * max_batch_size) ((Z.of_nat i + 1) * max_batch_size) ∧
        (0 < length batch)%nat ∧ Z.of_nat (length batch) ≤ max_batch_size) ∧
     concat todo = prompts ∧
     (Z.of_nat (length todo) - 1) * max_batch_size
       < Z.of_nat (length prompts) ≤ Z.of_nat (length todo) * max_batch_size) ∧
  (Z.of_nat (length prompts) * 2 ^ 1075 ≤ max_batch_size →
   batches prompts max_batch_size = inr []).
Proof.
  intros _ Hsize. split.
  - by apply batches_slices.
  - intros Hunder.
    destruct (batches_defined prompts max_batch_size) as [todo Htodo]; [lia|].
    rewrite Htodo. f_equal. by apply (batches_underflow prompts max_batch_size).
Qed.

Lemma batches_partition_witness :
  ∃ todo, batches [CStr "a"; CStr "b"; CStr "c"; CStr "d"; CStr "e"] 2 = inr todo ∧
          concat todo = [CStr "a"; CStr "b"; CStr "c"; CStr "d"; CStr "e"] ∧
          length todo = 3%nat.
Proof.
  destruct (batches_partition [CStr "a"; CStr "b"; CStr "c"; CStr "d"; CStr "e"] 2)
    as [Hslices _]; [reflexivity|lia|].
  destruct Hslices as (todo & Htodo & _ & Hconcat & Hcount); [right; reflexivity|].
  exists todo. repeat split; [done..|]. simpl in Hcount. lia.
Defined.

(** C2, at an input on which the code departs from it: with five prompts
    and the positive batch size 10^400 the quotient is rounded to 0.0, the
    range is empty and no batch is formed, so the batches do not give back
    the prompts and their number is not the ceiling of N/B, which is
    one. *)
Lemma batches_lost_to_underflow :
  1 ≤ 10 ^ 400 ∧
  batches letters (10 ^ 400) = inr [] ∧
  ¬ ∃ todo, batches letters (10 ^ 400) = inr todo ∧
            (concat todo = letters ∨ length todo = 1%nat).
Proof.
  assert (batches letters (10 ^ 400) = inr []) as Hnone by (vm_compute; reflexivity).
  split; [by vm_compute|]. split; [done|].
  intros (todo & Htodo & Hwrong). rewrite Hnone in Htodo. injection Htodo as <-.
  by destruct Hwrong.
Qed.

(** ** The thread pool and the promises *)

Lemma Forall2_concat {A B : Type} (P : A → B → Prop) (ls : list (list A)) (ks : list (list B)) :
  Forall2 (Forall2 P) ls ks → Forall2 P (concat ls) (concat ks).
Proof. induction 1; simpl; [constructor|by apply Forall2_app]. Qed.

Lemma tasks_indices {A : Type} (todo : list A) :
  (imap (λ i b, (i, b)) todo).*1 = seq 0 (length todo).
Proof.
  rewrite fmap_imap. rewrite (imap_ext _ (λ j _, id j)) by done.
  by rewrite imap_seq_0, list_fmap_id.
Qed.

Section Pool.

Context {Svc : Type}.
Variable submit : list cell → Svc → result Completion * Svc.

(** The pool serves the pending tasks in some order, each of them once. *)
Lemma run_pool_foldl picks pending pool :
  ∃ order, order ≡ₚ pending ∧
           run_pool submit picks pending pool = foldl (run_task submit) pool order.
Proof.
  revert pending pool. induction picks as [|pick picks IH]; intros pending pool.
  - by exists pending.
  - simpl. destruct (pending !! _) as [task|] eqn:Htask.
    + destruct (IH (delete (pick `mod` length pending)%nat pending) (run_task submit pool task))
        as (order & Hperm & ->).
      exists (task :: order). split; [|done].
      rewrite Hperm. symmetry. by apply delete_Permutation.
    + exists []. split; [|done]. apply lookup_ge_None in Htask.
      destruct pending as [|task pending]; [done|]. simpl in Htask.
      pose proof (Nat.mod_upper_bound pick (S (length pending))). lia.
Qed.

Lemma foldl_run_task_other order pool i :
  i ∉ order.*1 → (foldl (run_task submit) pool order).1 !! i = pool.1 !! i.
Proof.
  revert pool. induction order as [|[j b] order IH]; intros pool Hi; [done|].
  simpl in *. apply not_elem_of_cons in Hi as [Hij Hi]. rewrite IH by done.
  unfold run_task. simpl. destruct (submit b pool.2). simpl.
  by apply lookup_insert_ne.
Qed.

Lemma foldl_run_task_served order pool i b :
  NoDup order.*1 → (i, b) ∈ order →
  ∃ out, (foldl (run_task submit) pool order).1 !! i = Some out ∧ served submit b out.
Proof.
  revert pool. induction order as [|[j bj] order IH]; intros pool Hnd Hin.
  - by apply elem_of_nil in Hin.
  - simpl in *. apply NoDup_cons in Hnd as [Hj Hnd].
    apply elem_of_cons in Hin as [[= -> ->]|Hin]; [|by apply IH].
    rewrite foldl_run_task_other by done.
    exists (submit bj pool.2).1. unfold run_task, served. simpl.
    destruct (submit bj pool.2) as [out st] eqn:Hout. simpl.
    split; [apply lookup_insert_eq|]. exists pool.2. by rewrite Hout.
Qed.

(** When the [with] block is left, every future holds the outcome of the
    submission of its batch. *)
Lemma run_pool_complete picks (todo : list (list cell)) st i b :
  todo !! i = Some b →
  ∃ out, (run_pool submit picks (imap (λ i b, (i, b)) todo) (∅, st)).1 !! i = Some out ∧
         served submit b out.
Proof.
  intros Hi.
  destruct (run_pool_foldl picks (imap (λ i b, (i, b)) todo) (∅, st)) as (order & Hperm & ->).
  apply foldl_run_task_served.
  - rewrite Hperm, tasks_indices. apply NoDup_seq.
  - rewrite Hperm. apply elem_of_lookup_imap. eauto.
Qed.

End Pool.

Lemma choices_of_fold_parallel (completion : option Completion) (partials : list Completion) :
  choices_of (fold_parallel completion partials)
  = choices_of completion ++ concat (choices <$> partials).
Proof.
  revert completion. induction partials as [|c partials IH]; intros completion.
  - simpl. by rewrite app_nil_r.
  - unfold fold_parallel in *. simpl. rewrite IH. simpl.
    destruct completion; simpl; [by rewrite <- app_assoc|done].
Qed.

(** The usage the promises loop ends with is that of the first batch. *)
Lemma usage_fold_parallel (first : Completion) (partials : list Completion) :
  ∃ completion, fold_parallel None (first :: partials) = Some completion ∧
                usage completion = usage first.
Proof.
  unfold fold_parallel. simpl. revert first.
  induction partials as [|c partials IH]; intros acc; simpl; [by eauto|].
  destruct (IH {| choices := choices acc ++ choices c; usage := usage acc |})
    as (completion & -> & Husage). by eauto.
Qed.

Lemma gather_responses futures promises completion merged :
  gather futures promises completion = Some (inr merged) ↔
  ∃ partials, Forall2 (λ p c, futures !! p = Some (inr c)) promises partials ∧
              merged = fold_parallel completion partials.
Proof.
  revert completion. induction promises as [|p promises IH]; intros completion; simpl.
  - split.
    + intros [= <-]. exists []. by split; [constructor|].
    + intros (partials & Hall & ->). by inversion Hall.
  - destruct (futures !! p) as [[e|c]|] eqn:Hp.
    + split; [done|]. intros (partials & Hall & _). inversion Hall; congruence.
    + rewrite IH. split.
      * intros (partials & Hall & ->). exists (c :: partials). by split; [constructor|].
      * intros (partials & Hall & ->). inversion Hall as [|? c' ? partials' Hc Hall']; subst.
        rewrite Hp in Hc. injection Hc as <-. by exists partials'.
    + split; [done|]. intros (partials & Hall & _). inversion Hall; congruence.
Qed.

(** [result()] of the first promise whose future holds an exception
    re-raises it, whatever the futures after it hold. *)
Lemma gather_failure futures (n k : nat) completion (j : nat) e :
  (∀ i, (n ≤ i < n + k)%nat → is_Some (futures !! i)) →
  (n ≤ j < n + k)%nat → futures !! j = Some (inl e) →
  ∃ first e',
    (n ≤ first ≤ j)%nat ∧ futures !! first = Some (inl e') ∧
    (∀ i, (n ≤ i < first)%nat → ∃ c, futures !! i = Some (inr c)) ∧
    gather futures (seq n k) completion = Some (inl e').
Proof.
  revert n completion. induction k as [|k IH]; intros n completion Hall Hj He; [lia|].
  simpl. destruct (Hall n ltac:(lia)) as [[e0|c] Hn]; rewrite Hn.
  - exists n, e0. repeat split; try done; try lia.
  - assert (j ≠ n) by congruence.
    destruct (IH (S n) (Some (merge_parallel completion c))) as (first & e' & ? & ? & Hbefore & ?);
      [intros i ?; apply Hall; lia|lia|done|].
    exists first, e'. repeat split; try done; try lia.
    intros i ?. destruct (decide (i = n)) as [->|]; [by eauto|]. apply Hbefore. lia.
Qed.

Lemma Forall_exists_Forall2 {A B : Type} (P : A → B → Prop) (l : list A) :
  Forall (λ x, ∃ y, P x y) l → ∃ k, Forall2 P l k.
Proof.
  induction 1 as [|x l [y Hy] _ [k Hk]]; [by exists []|].
  exists (y :: k). by constructor.
Qed.

(** A negative batch size leaves nothing to submit. *)
Lemma batches_negative (prompts : list cell) (max_batch_size : Z) todo :
  max_batch_size < 1 → batches prompts max_batch_size = inr todo → todo = [].
Proof.
  unfold batches, batch_count. intros Hsize.
  destruct (Z.eqb_spec max_batch_size 0) as [?|Hne]; [done|].
  destruct (Z.leb_spec (Z.of_nat (length prompts) * 2 ^ 1075) max_batch_size) as [?|_];
    [by intros [= <-]|].
  simpl. intros [= <-].
  assert (0 ≤ (- Z.of_nat (length prompts)) `div` max_batch_size).
  { destruct (decide (length prompts = 0%nat)) as [->|]; [done|].
    pose proof (Z.div_mod (- Z.of_nat (length prompts)) max_batch_size Hne).
    pose proof (Z.mod_neg_bound (- Z.of_nat (length prompts)) max_batch_size ltac:(lia)).
    nia. }
  by replace (Z.to_nat _) with 0%nat by lia.
Qed.

(** Batches that are formed give back the prompts. *)
Lemma batches_concat (prompts : list cell) (max_batch_size : Z) todo :
  batches prompts max_batch_size = inr todo → todo = [] ∨ concat todo = prompts.
Proof.
  intros Htodo.
  destruct (decide (1 ≤ max_batch_size)) as [Hsize|Hsize];
    [|left; apply (batches_negative prompts max_batch_size); [lia|done]].
  destruct (decide (max_batch_size < Z.of_nat (length prompts) * 2 ^ 1075)) as [Hbound|Hbound];
    [|left; apply (batches_underflow prompts max_batch_size); [lia|done]].
  right.
  destruct (batches_slices prompts max_batch_size Hsize (or_intror Hbound))
    as (todo' & Htodo' & _ & Hconcat & _).
  rewrite Htodo in Htodo'. by injection Htodo' as <-.
Qed.

(** A service that takes every request of at most [max_batch_size]
    prompts, and has rejected the list of all prompts, was sent more than
    that: the batch size is then in the range where batches are formed. *)
Lemma rejected_exceeds {Svc : Type} (completion_create : Request → Svc → result Completion * Svc)
    model_name prompts max_tokens temperature api_key args st e st1 (max_batch_size : Z) :
  _submit_completion completion_create model_name prompts max_tokens temperature api_key args st
    = (inl e, st1) →
  prompts ≠ [] →
  (∀ r s, prompt r ≠ [] → Z.of_nat (length (prompt r)) ≤ max_batch_size →
          ∃ c s', completion_create r s = (inr c, s')) →
  prompts = [] ∨ max_batch_size < Z.of_nat (length prompts) * 2 ^ 1075.
Proof.
  intros Hprobe Hprompts Haccepts. right.
  destruct (decide (Z.of_nat (length prompts) ≤ max_batch_size)) as [Hle|Hgt]; [|lia].
  unfold _submit_completion in Hprobe.
  destruct (Haccepts (Build_Request model_name prompts max_tokens temperature api_key
                        (get args "api_organization" JNull)) st) as (c & s' & Hc); [done..|].
  by rewrite Hc in Hprobe.
Qed.

(** ** [_completion] under the thread pool *)

Section Completion.

Context {Svc : Type}.
Variable completion_create : Request → Svc → result Completion * Svc.

(** What the service is trusted with: the choices of a response answer
    the prompts of the request, one each and in their order. *)
Variable answers : cell → string → Prop.
Hypothesis contract : ∀ r st c st',
  completion_create r st = (inr c, st') → Forall2 answers (prompt r) (text <$> choices c).

Variables (self : OpenAIHandler) (model_name max_tokens temperature api_key : json) (args : dict).

Local Abbreviation submit :=
  (λ batch : list cell,
     _submit_completion completion_create model_name batch max_tokens temperature api_key args).

Lemma served_answers batch c :
  served submit batch (inr c) → Forall2 answers batch (text <$> choices c).
Proof.
  intros [st Hst]. unfold _submit_completion in Hst.
  destruct (completion_create _ st) as [out st'] eqn:Hout. simpl in Hst. subst out.
  by apply contract in Hout.
Qed.

Lemma tidy_answers completion prompts out :
  _tidy completion = inr out →
  Forall2 answers prompts (text <$> choices_of completion) →
  length out = length prompts ∧
  ∀ i p, prompts !! i = Some p →
         ∃ raw, answers p raw ∧ out !! i = Some (PyStr.strip nl raw).
Proof.
  destruct completion as [completion|]; [|done]. simpl. intros [= <-] Hall.
  split.
  { apply Forall2_length in Hall. by rewrite !length_fmap in *. }
  intros i p Hp.
  destruct (Forall2_lookup_l _ _ _ _ _ Hall Hp) as (raw & Hraw & Hanswers).
  exists raw. split; [done|].
  rewrite list_lookup_fmap in Hraw. rewrite list_lookup_fmap.
  destruct (choices completion !! i) as [c|]; [|done]. simpl in *.
  injection Hraw as <-. by rewrite strip_empty.
Qed.

(** The futures the promises loop reads: one per batch, each holding what
    the submission of that batch came back with. *)
Lemma dispatch_parallel prompts max_batch_size picks st todo :
  batches prompts max_batch_size = inr todo →
  let futures := (run_pool submit picks (imap (λ i b, (i, b)) todo) (∅, st)).1 in
  (dispatch submit prompts max_batch_size true picks st).1
    = gather futures (seq 0 (length todo)) None ∧
  (∀ i b, todo !! i = Some b → ∃ out, futures !! i = Some out ∧ served submit b out) ∧
  (∀ i, is_Some (futures !! i) → (i < length todo)%nat).
Proof.
  intros Htodo futures. split; [|split].
  - unfold dispatch. rewrite Htodo. simpl. subst futures. by destruct (run_pool _ _ _ _).
  - intros i b. apply run_pool_complete.
  - intros i Hi. subst futures.
    destruct (run_pool_foldl submit picks (imap (λ i b, (i, b)) todo) (∅, st))
      as (order & Hperm & Hrun).
    rewrite Hrun in Hi. destruct (decide (i ∈ order.*1)) as [Hin|Hout].
    + rewrite Hperm, tasks_indices in Hin. apply elem_of_seq in Hin. lia.
    + rewrite foldl_run_task_other in Hi by done. simpl in Hi.
      rewrite lookup_empty in Hi. by destruct Hi.
Qed.

Lemma dispatch_parallel_responses prompts max_batch_size picks st merged :
  (dispatch submit prompts max_batch_size true picks st).1 = Some (inr (Some merged)) →
  Forall2 answers prompts (text <$> choices merged).
Proof.
  intros Hdispatch.
  destruct (batches prompts max_batch_size) as [e|todo] eqn:Htodo.
  { unfold dispatch in Hdispatch. by rewrite Htodo in Hdispatch. }
  destruct (dispatch_parallel prompts max_batch_size picks st todo Htodo) as (Hgather & Hserved & _).
  rewrite Hgather in Hdispatch.
  apply gather_responses in Hdispatch as (partials & Hpartials & Hmerged).
  change (choices merged) with (choices_of (Some merged)).
  rewrite Hmerged, choices_of_fold_parallel. simpl.
  assert (Forall2 (λ b c, Forall2 answers b (text <$> choices c)) todo partials) as Hall.
  { apply Forall2_same_length_lookup_2.
    - apply Forall2_length in Hpartials. by rewrite length_seq in Hpartials.
    - intros i b c Hb Hc. apply served_answers.
      destruct (Hserved i b Hb) as (out & Hout & Hsrv).
      assert (seq 0 (length todo) !! i = Some i) as Hi.
      { apply lookup_seq. split; [done|]. by apply lookup_lt_Some in Hb. }
      pose proof (Forall2_lookup_lr _ _ _ _ _ _ Hpartials Hi Hc) as Hfut.
      simpl in Hfut. by rewrite Hout in Hfut; injection Hfut as ->. }
  destruct (batches_concat prompts max_batch_size todo Htodo) as [->|Hconcat].
  - apply Forall2_length in Hpartials. by destruct partials.
  - rewrite <- Hconcat. clear -Hall.
    induction Hall as [|b c todo partials Hbc _ IH]; [constructor|].
    simpl. rewrite fmap_app. by apply Forall2_app.
Qed.

Lemma completion_returned prompts picks st out st' :
  _completion completion_create self model_name prompts max_tokens temperature api_key args
    true picks st = (Some (inr out), st') →
  length out = length prompts ∧
  ∀ i p, prompts !! i = Some p →
         ∃ raw, answers p raw ∧ out !! i = Some (PyStr.strip nl raw).
Proof.
  unfold _completion.
  destruct (_submit_completion _ _ prompts _ _ _ _ st) as [[e|c] st1] eqn:Hprobe.
  - destruct e; try done.
    destruct (discover_max_batch_size self user_message) as [e|max_batch_size]; [done|].
      destruct (dispatch submit prompts max_batch_size true picks st1)
      as [[[e|[merged|]]|] st2] eqn:Hdispatch; try done.
    intros Hout. apply (tidy_answers (Some merged)); [congruence|].
    apply (dispatch_parallel_responses _ max_batch_size picks st1). by rewrite Hdispatch.
  - intros Hout. apply (tidy_answers (Some c)); [congruence|].
    unfold _submit_completion in Hprobe. by apply contract in Hprobe.
Qed.

Lemma completion_returns prompts picks st e st1 max_batch_size :
  _submit_completion completion_create model_name prompts max_tokens temperature api_key args st
    = (inl (InvalidRequestError e), st1) →
  discover_max_batch_size self e = inr max_batch_size →
  1 ≤ max_batch_size → prompts ≠ [] →
  (∀ r s, prompt r ≠ [] → Z.of_nat (length (prompt r)) ≤ max_batch_size →
          ∃ c s', completion_create r s = (inr c, s')) →
  ∃ out st',
    _completion completion_create self model_name prompts max_tokens temperature api_key args
      true picks st = (Some (inr out), st').
Proof.
  intros Hprobe Hsize Hpos Hprompts Haccepts.
  pose proof (rejected_exceeds _ _ _ _ _ _ _ _ _ _ _ Hprobe Hprompts Haccepts) as Hbound.
  unfold _completion. rewrite Hprobe, Hsize.
  destruct (batches_slices prompts max_batch_size Hpos Hbound)
    as (todo & Htodo & Hbatch & Hconcat & _).
  destruct (dispatch_parallel prompts max_batch_size picks st1 todo Htodo) as (Hgather & Hserved & _).
  destruct (dispatch submit prompts max_batch_size true picks st1) as [outcome st2].
  simpl in Hgather. subst outcome.
  destruct (Forall_exists_Forall2
    (λ p c, (run_pool submit picks (imap (λ i b, (i, b)) todo) (∅, st1)).1 !! p = Some (inr c))
    (seq 0 (length todo))) as [partials Hpartials].
  { apply Forall_seq. intros i [_ Hi].
    destruct (lookup_lt_is_Some_2 todo i Hi) as [b Hb].
    destruct (Hserved i b Hb) as (out & Hout & s & Hst).
    destruct (Hbatch i b Hb) as (_ & Hne & Hle).
    destruct (Haccepts (Build_Request model_name b max_tokens temperature api_key
                          (get args "api_organization" JNull)) s)
      as (c & s' & Hc); [simpl; intros ->; simpl in Hne; lia|done|].
    exists c. rewrite Hout. unfold _submit_completion in Hst.
    rewrite Hc in Hst. by rewrite <- Hst. }
  assert (gather (run_pool submit picks (imap (λ i b, (i, b)) todo) (∅, st1)).1
            (seq 0 (length todo)) None = Some (inr (fold_parallel None partials))) as ->.
  { apply gather_responses. by exists partials. }
  destruct partials as [|c partials].
  { apply Forall2_length in Hpartials. rewrite length_seq in Hpartials.
    destruct todo; [|done]. by subst prompts. }
  destruct (usage_fold_parallel c partials) as (merged & -> & _).
  simpl. by eauto.
Qed.

(** C1: under the thread pool, whatever order the batches are served in
    and whatever batch size was discovered, a list the call returns has
    one completion per prompt, and its i-th element is the (newline
    stripped) completion the service gave for the i-th prompt; and the
    call does return such a list when the service rejects the whole list
    with a limit of at least one and accepts every batch within it. *)
Theorem completion_parallel_order prompts picks st :
  (∀ out st',
     _completion completion_create self model_name prompts max_tokens temperature api_key args
       true picks st = (Some (inr out), st') →
     length out = length prompts ∧
     ∀ i p, prompts !! i = Some p →
            ∃ raw, answers p raw ∧ out !! i = Some (PyStr.strip nl raw)) ∧
  (∀ e st1 max_batch_size,
     _submit_completion completion_create model_name prompts max_tokens temperature api_key args st
       = (inl (InvalidRequestError e), st1) →
     discover_max_batch_size self e = inr max_batch_size →
     1 ≤ max_batch_size → prompts ≠ [] →
     (∀ r s, prompt r ≠ [] → Z.of_nat (length (prompt r)) ≤ max_batch_size →
             ∃ c s', completion_create r s = (inr c, s')) →
     ∃ out st',
       _completion completion_create self model_name prompts max_tokens temperature api_key args
         true picks st = (Some (inr out), st')).
Proof.
  split.
  - intros out st'. apply completion_returned.
  - intros e st1 max_batch_size. apply completion_returns.
Qed.

Lemma completion_raises prompts picks st e st1 max_batch_size todo j err :
  _submit_completion completion_create model_name prompts max_tokens temperature api_key args st
    = (inl (InvalidRequestError e), st1) →
  discover_max_batch_size self e = inr max_batch_size →
  batches prompts max_batch_size = inr todo →
  let futures := (run_pool submit picks (imap (λ i b, (i, b)) todo) (∅, st1)).1 in
  futures !! j = Some (inl err) →
  ∃ first err',
    (first ≤ j)%nat ∧ futures !! first = Some (inl err') ∧
    (∀ i, (i < first)%nat → ∃ c, futures !! i = Some (inr c)) ∧
    (_completion completion_create self model_name prompts max_tokens temperature api_key args
       true picks st).1 = Some (inl err').
Proof.
  intros Hprobe Hsize Htodo futures Hj.
  destruct (dispatch_parallel prompts max_batch_size picks st1 todo Htodo)
    as (Hgather & Hserved & Hdom).
  fold futures in Hgather, Hserved, Hdom.
  destruct (gather_failure futures 0 (length todo) None j err) as (first & err' & ? & ? & Hbefore & Hfirst).
  { intros i ?. destruct (lookup_lt_is_Some_2 todo i ltac:(lia)) as [b Hb].
    destruct (Hserved i b Hb) as (out & -> & _). by eauto. }
  { split; [lia|]. apply Hdom. by eauto. }
  { done. }
  exists first, err'. repeat split; [lia|done|intros i ?; apply Hbefore; lia|].
  unfold _completion.
  rewrite Hprobe, Hsize.
  destruct (dispatch submit prompts max_batch_size true picks st1) as [outcome st2].
  simpl in Hgather. subst outcome. by rewrite Hfirst.
Qed.

(** C4: under the thread pool, once the whole list was rejected and
    batches were submitted, a future that holds an exception makes the
    call raise: what it raises is the exception of the first such future
    in submission order (the given one, when no earlier batch failed), and
    the completions of the batches that succeeded are not returned. *)
Theorem completion_all_or_nothing prompts picks st e st1 max_batch_size todo j err :
  _submit_completion completion_create model_name prompts max_tokens temperature api_key args st
    = (inl (InvalidRequestError e), st1) →
  discover_max_batch_size self e = inr max_batch_size →
  batches prompts max_batch_size = inr todo →
  let futures :=
    (run_pool
       (λ batch, _submit_completion completion_create model_name batch max_tokens temperature
                   api_key args)
       picks (imap (λ i b, (i, b)) todo) (∅, st1)).1 in
  futures !! j = Some (inl err) →
  ∃ first err',
    (first ≤ j)%nat ∧ futures !! first = Some (inl err') ∧
    (∀ i, (i < first)%nat → ∃ c, futures !! i = Some (inr c)) ∧
    (_completion completion_create self model_name prompts max_tokens temperature api_key args
       true picks st).1 = Some (inl err') ∧
    ∀ out, (_completion completion_create self model_name prompts max_tokens temperature api_key
              args true picks st).1 ≠ Some (inr out).
Proof.
  intros Hprobe Hsize Htodo futures Hj.
  destruct (completion_raises prompts picks st e st1 max_batch_size todo j err
              Hprobe Hsize Htodo Hj) as (first & err' & ? & ? & ? & Hraise).
  exists first, err'. repeat split; try done. intros out. by rewrite Hraise.
Qed.

End Completion.

(** The sample service keeps the contract, and accepts what is within its
    limit when it refuses nothing. *)
Lemma echo_contract limit refused r st c st' :
  echo limit refused r st = (inr c, st') → Forall2 echoed (prompt r) (text <$> choices c).
Proof.
  unfold echo. destruct (_ <? _)%nat; [done|]. destruct (existsb _ _); [done|].
  intros [= <- _]. simpl. rewrite <- list_fmap_compose.
  apply Forall2_fmap_r, Forall_Forall2_diag, Forall_forall. by intros p _.
Qed.

Lemma echo_accepts limit r st :
  Z.of_nat (length (prompt r)) ≤ Z.of_nat limit → ∃ c st', echo limit None r st = (inr c, st').
Proof.
  intros Hlen. unfold echo. destruct (Nat.ltb_spec limit (length (prompt r))) as [?|_]; [lia|].
  assert (existsb (is_refused None) (prompt r) = false) as ->; [|by eauto].
  clear. induction (prompt r) as [|p l IH]; [done|]. simpl. by rewrite IH.
Qed.

Lemma completion_parallel_order_witness :
  ∃ out,
    (_completion (echo 2 None) init (JStr "text-davinci-002") letters (JInt 20) (JFloat 0)
       (JStr "key") ∅ true [2%nat; 0%nat] 0%nat).1 = Some (inr out) ∧
    length out = 5%nat ∧
    ∃ raw, echoed (CStr "d") raw ∧ out !! 3%nat = Some (PyStr.strip nl raw).
Proof.
  destruct (completion_parallel_order (echo 2 None) echoed (echo_contract 2 None) init
              (JStr "text-davinci-002") (JInt 20) (JFloat 0) (JStr "key") ∅ letters
              [2%nat; 0%nat] 0%nat) as [Hordered Hreturns].
  destruct (Hreturns (limit_message 2) 1%nat 2) as (out & st' & Hout).
  - vm_compute. reflexivity.
  - vm_compute. reflexivity.
  - lia.
  - discriminate.
  - intros r s _. apply (echo_accepts 2).
  - exists out. rewrite Hout. apply Hordered in Hout as [Hlen Hith].
    split; [done|]. split; [done|]. by apply Hith.
Defined.

Lemma completion_all_or_nothing_witness :
  (_completion (echo 2 (Some "c")) init (JStr "text-davinci-002") letters (JInt 20) (JFloat 0)
     (JStr "key") ∅ true [2%nat; 0%nat] 0%nat).1 = Some (inl (ServiceError "refused")).
Proof.
  destruct (completion_all_or_nothing (echo 2 (Some "c")) init
              (JStr "text-davinci-002") (JInt 20) (JFloat 0) (JStr "key") ∅ letters
              [2%nat; 0%nat] 0%nat (limit_message 2) 1%nat 2
              [[CStr "a"; CStr "b"]; [CStr "c"; CStr "d"]; [CStr "e"]] 1%nat
              (ServiceError "refused"))
    as (first & err & Hle & Hfirst & _ & Hraise & _).
  - vm_compute. reflexivity.
  - vm_compute. reflexivity.
  - vm_compute. reflexivity.
  - vm_compute. reflexivity.
  - rewrite Hraise. destruct first as [|[|first]]; [| |lia].
    + vm_compute in Hfirst. discriminate.
    + vm_compute in Hfirst. by injection Hfirst as <-.
Defined.

(** ** Usage counters *)

(** The sequential loop adds the usage of every batch to that of the
    first. *)
Lemma usage_merge_sequential completion partial :
  usage (merge_sequential (Some completion) partial) = add_usage (usage completion) (usage partial).
Proof. reflexivity. Qed.

Lemma run_sequential_merge {Svc : Type} (submit : list cell → Svc → result Completion * Svc)
    todo completion st merged st' :
  run_sequential submit todo (Some completion) st = (inr merged, st') →
  ∃ partials,
    Forall2 (λ batch partial, served submit batch (inr partial)) todo partials ∧
    merged = Some {| choices := choices completion ++ concat (choices <$> partials);
                     usage := foldl add_usage (usage completion) (usage <$> partials) |}.
Proof.
  revert completion st. induction todo as [|batch todo IH]; intros completion st; simpl.
  - intros [= <- _]. exists []. split; [constructor|].
    destruct completion. simpl. by rewrite app_nil_r.
  - destruct (submit batch st) as [[e|partial] st1] eqn:Hsubmit; [done|].
    intros Hrun. apply IH in Hrun as (partials & Hserved & ->).
    exists (partial :: partials). split.
    + constructor; [|done]. exists st. by rewrite Hsubmit.
    + simpl. by rewrite <- app_assoc.
Qed.

(** X9: under the sequential policy, when every batch is answered, the
    assembled response has the choices of the batches end to end and, as
    usage, the sum, field by field, of the usage of the batches. *)
Lemma run_sequential_usage {Svc : Type} (submit : list cell → Svc → result Completion * Svc)
    batch todo st merged st' :
  run_sequential submit (batch :: todo) None st = (inr merged, st') →
  ∃ first partials completion,
    Forall2 (λ batch partial, served submit batch (inr partial)) (batch :: todo)
      (first :: partials) ∧
    merged = Some completion ∧
    choices completion = concat (choices <$> first :: partials) ∧
    usage completion = foldl add_usage (usage first) (usage <$> partials).
Proof.
  simpl. destruct (submit batch st) as [[e|first] st1] eqn:Hsubmit; [done|].
  intros Hrun. apply run_sequential_merge in Hrun as (partials & Hserved & ->).
  exists first, partials. eexists. split; [|done].
  constructor; [|done]. exists st. by rewrite Hsubmit.
Qed.

(** C3, at the input on which the code departs from it: for the two
    batches with usage (10, 5, 15) and (7, 3, 10) the sequential loop ends
    with usage (17, 8, 25), but the loop over the promises of the thread
    pool ends with the usage of the first batch, (10, 5, 15): it extends
    the choices only. *)
Theorem usage_not_summed_under_pool :
  let submit batch :=
    _submit_completion scripted (JStr "text-davinci-002") batch (JInt 20) (JFloat 0)
      (JStr "key") ∅ in
  (dispatch submit [CStr "a"; CStr "b"] 1 false [] [inr first_batch; inr second_batch]).1
    = Some (inr (Some {| choices := [ {| text := "one" |}; {| text := "two" |} ];
                         usage := {| prompt_tokens := 17; completion_tokens := 8;
                                     total_tokens := 25 |} |})) ∧
  (dispatch submit [CStr "a"; CStr "b"] 1 true [] [inr first_batch; inr second_batch]).1
    = Some (inr (Some {| choices := [ {| text := "one" |}; {| text := "two" |} ];
                         usage := {| prompt_tokens := 10; completion_tokens := 5;
                                     total_tokens := 15 |} |})).
Proof. split; vm_compute; reflexivity. Qed.

(** ** Discovery of the batch size *)






















(** ** The caller's frame *)

Lemma render_frame template columns i df r df' :
  render template columns i df = (r, df') →
  nrows df' = nrows df ∧
  ∀ name, name ≠ "__mdb_prompt" → cols df' !! name = cols df !! name.
Proof.
  revert i df. induction template as [|atom template IH]; intros i df; simpl.
  - by intros [= _ <-].
  - match goal with |- context [match ?p with inl _ => _ | inr _ => _ end] => destruct p as [e|prompt] end.
    + by intros [= _ <-].
    + intros Hrender. apply IH in Hrender as [Hrows Hcols]. split; [done|].
      intros name Hname. rewrite Hcols by done. simpl. by apply lookup_insert_ne.
Qed.


Lemma predict_setup_args self env df call_args stored pred_args args model_name temperature
    max_tokens :
  model_storage env !! "args" = Some stored →
  predict_setup self env df call_args = inr (pred_args, args, model_name, temperature, max_tokens) →
  args = stored.
Proof.
  intros Hstored. unfold predict_setup. rewrite Hstored.
  repeat match goal with
         | |- bind ?m _ = _ → _ => destruct m; simpl; [done|]
         end.
  by intros [= _ -> _ _ _].
Qed.

Lemma build_prompts_frame args pred_args df r df' :
  build_prompts args pred_args df = (r, df') →
  nrows df' = nrows df ∧
  ∀ name, name ≠ "__mdb_prompt" → cols df' !! name = cols df !! name.
Proof.
  unfold build_prompts.
  destruct (truthy (get args "prompt_template" (JBool false))).
  - match goal with |- context [match ?p with inl _ => _ | inr _ => _ end] =>
      destruct p as [e|[template columns]] end; [by intros [= _ <-]|].
    destruct (render template columns 0 (fill_column "__mdb_prompt" (CStr "") df))
      as [[e|[]] df1] eqn:Hrender; intros [= _ <-];
      apply render_frame in Hrender as [Hrows Hcols]; (split; [done|]);
      intros name Hname; rewrite Hcols by done; simpl; by apply lookup_insert_ne.
  - destruct (truthy (get args "context_column" (JBool false))); by intros [= _ <-].
Qed.

(** X17: whatever its outcome, [predict] leaves the number of rows and
    every column other than [__mdb_prompt] of the caller's frame as they
    were. *)
Lemma predict_frame {Svc : Type} (completion_create : Request → Svc → result Completion * Svc)
    self env df call_args picks st outcome df' st' :
  predict completion_create self env df call_args picks st = (outcome, df', st') →
  nrows df' = nrows df ∧
  ∀ name, name ≠ "__mdb_prompt" → cols df' !! name = cols df !! name.
Proof.
  unfold predict.
  destruct (predict_setup self env df call_args)
    as [e|[[[[pred_args args] model_name] temperature] max_tokens]]; [by intros [= _ <- _]|].
  destruct (build_prompts args pred_args df) as [[e|prompts] df1] eqn:Hbuild;
    apply build_prompts_frame in Hbuild; [by intros [= _ <- _]|].
  destruct (_get_api_key env args) as [e|api_key]; [by intros [= _ <- _]|].
  destruct (_completion _ _ _ _ _ _ _ _ _ _ _) as [[[e|completion]|] st1];
    by intros [= _ <- _].
Qed.







(** * Further properties of the handler *)

(** ** [create_validation] and [create] *)

(** X1: validation reads nothing but which of [prompt_template] and
    [question_column] the [USING] clause holds: two statements whose
    clauses agree on the presence of these two keys are treated alike,
    whatever their values, their target and their other keys (a
    [context_column] among them). *)
Theorem create_validation_keys_only (target target' : string)
    (args args' : gmap string dict) (clause clause' : dict) :
  args !! "using" = Some clause → args' !! "using" = Some clause' →
  (is_Some (clause !! "prompt_template") ↔ is_Some (clause' !! "prompt_template")) →
  (is_Some (clause !! "question_column") ↔ is_Some (clause' !! "question_column")) →
  create_validation target (Some args) = create_validation target' (Some args').
Proof.
  intros Husing Husing' Htemplate Hquestion. unfold create_validation, item.
  assert (has_key args "using" = true) as -> by (apply has_key_true; eauto).
  assert (has_key args' "using" = true) as -> by (apply has_key_true; eauto).
  rewrite Husing, Husing'. simpl.
  assert (has_key clause "prompt_template" = has_key clause' "prompt_template") as ->.
  { unfold has_key. by apply bool_decide_ext. }
  assert (has_key clause "question_column" = has_key clause' "question_column") as ->.
  { unfold has_key. by apply bool_decide_ext. }
  done.
Qed.

Lemma create_validation_keys_only_witness :
  create_validation "greeting" (Some {[ "using" := template_using ]}) = inr () ∧
  create_validation "greeting" (Some {[ "using" := empty_template_using ]}) = inr ().
Proof.
  assert (create_validation "greeting" (Some {[ "using" := template_using ]}) = inr ()) as Hok
    by reflexivity.
  split; [done|]. rewrite <- Hok.
  apply (create_validation_keys_only _ _ _ _ empty_template_using template_using);
    [reflexivity|reflexivity| |].
  - split; intros _; by eexists.
  - split; intros [? Hx]; vm_compute in Hx; discriminate.
Defined.

(** X2: without a [USING] clause validation raises its own exception,
    whatever else the statement holds, and on [None] the membership test
    itself raises. *)
Theorem create_validation_requires_using (target : string) :
  create_validation target None = inl TypeError ∧
  ∀ args : gmap string dict,
    args !! "using" = None → create_validation target (Some args) = inl UsingClauseRequired.
Proof.
  split; [done|]. intros args Husing. unfold create_validation.
  by assert (has_key args "using" = false) as -> by (by apply has_key_false).
Qed.

Lemma create_validation_requires_using_witness :
  create_validation "greeting" (Some {[ "predict_params" := both_using ]})
  = inl UsingClauseRequired.
Proof. by apply create_validation_requires_using. Defined.

Lemma create_lookup (env : Env) (target : string) (args : gmap string dict) :
  (args !! "using" = None → create env target args = inl (KeyError (JStr "using"))) ∧
  (∀ clause, args !! "using" = Some clause →
     ∃ env' stored,
       create env target args = inr env' ∧
       model_storage env' !! "args" = Some stored ∧
       stored !! "target" = Some (JStr target) ∧
       (∀ k, k ≠ "target" → stored !! k = clause !! k) ∧
       (∀ k, k ≠ "args" → model_storage env' !! k = model_storage env !! k) ∧
       connection_args env' = connection_args env ∧
       env_api_key env' = env_api_key env ∧
       config env' = config env).
Proof.
  unfold create, item. split.
  - by intros ->.
  - intros clause ->. simpl. eexists _, _. split; [reflexivity|]. simpl.
    split; [apply lookup_insert_eq|]. split; [apply lookup_insert_eq|].
    split; [intros k Hk; by apply lookup_insert_ne|].
    split; [intros k Hk; by apply lookup_insert_ne|]. done.
Qed.

(** X3: [create] stores the [USING] clause under ['args'] with the target
    written over any [target] of the clause; the rest of the clause and of
    the storage stays, and so do the other surroundings; a statement
    without the clause raises [KeyError]. *)
Theorem create_stores_args (env : Env) (target : string) (args : gmap string dict) :
  (args !! "using" = None → create env target args = inl (KeyError (JStr "using"))) ∧
  (∀ clause, args !! "using" = Some clause →
     ∃ env' stored,
       create env target args = inr env' ∧
       model_storage env' !! "args" = Some stored ∧
       stored !! "target" = Some (JStr target) ∧
       (∀ k, k ≠ "target" → stored !! k = clause !! k) ∧
       (∀ k, k ≠ "args" → model_storage env' !! k = model_storage env !! k) ∧
       connection_args env' = connection_args env ∧
       env_api_key env' = env_api_key env ∧
       config env' = config env).
Proof. apply create_lookup. Qed.

Lemma create_stores_args_witness :
  ∃ env' stored,
    create bare_env "greeting" {[ "using" := <[ "target" := JStr "other" ]> both_using ]}
      = inr env' ∧
    model_storage env' !! "args" = Some stored ∧
    stored !! "target" = Some (JStr "greeting").
Proof.
  destruct (create_stores_args bare_env "greeting"
              {[ "using" := <[ "target" := JStr "other" ]> both_using ]}) as [_ Hcreate].
  destruct (Hcreate (<[ "target" := JStr "other" ]> both_using))
    as (env' & stored & ? & ? & ? & _); [reflexivity|].
  by exists env', stored.
Defined.

(** X4: a statement that validation accepts is one [create] accepts, and
    what is stored then holds the target and exactly one of
    [prompt_template] and [question_column]. *)
Theorem create_after_validation (env : Env) (target : string) (args : gmap string dict) :
  create_validation target (Some args) = inr () →
  ∃ env' stored,
    create env target args = inr env' ∧
    model_storage env' !! "args" = Some stored ∧
    stored !! "target" = Some (JStr target) ∧
    ((is_Some (stored !! "prompt_template") ∧ stored !! "question_column" = None) ∨
     (stored !! "prompt_template" = None ∧ is_Some (stored !! "question_column"))).
Proof.
  intros Hvalid.
  destruct (args !! "using") as [clause|] eqn:Husing.
  - destruct (create_lookup env target args) as [_ Hcreate].
    destruct (Hcreate clause Husing) as (env' & stored & ? & ? & ? & Hrest & _).
    exists env', stored. repeat split; try done.
    rewrite !Hrest by done.
    revert Hvalid. unfold create_validation, item.
    assert (has_key args "using" = true) as -> by (apply has_key_true; eauto).
    rewrite Husing. simpl.
    destruct (has_key clause "question_column") eqn:Hq,
             (has_key clause "prompt_template") eqn:Hp; simpl; try done; intros _;
      repeat match goal with
             | H : has_key _ _ = true |- _ => apply has_key_true in H
             | H : has_key _ _ = false |- _ => apply has_key_false in H
             end; auto.
  - revert Hvalid. unfold create_validation.
    by assert (has_key args "using" = false) as -> by (by apply has_key_false).
Qed.

Lemma create_after_validation_witness :
  ∃ env' stored,
    create bare_env "greeting" {[ "using" := template_using ]} = inr env' ∧
    model_storage env' !! "args" = Some stored ∧
    stored !! "target" = Some (JStr "greeting").
Proof.
  destruct (create_after_validation bare_env "greeting" {[ "using" := template_using ]})
    as (env' & stored & ? & ? & ? & _); [reflexivity|].
  by exists env', stored.
Defined.

(** ** [_get_api_key] *)

(** X5: the key is looked for in the stored arguments, then in the
    connection arguments of the engine, then in the environment, then in
    the configuration, and the first place that has one decides, whatever
    the later ones hold; [MissingApiKey] is raised exactly when none of
    the four has one. *)
Theorem api_key_precedence (env : Env) (args : dict) :
  (∀ k, args !! "api_key" = Some k → _get_api_key env args = inr k) ∧
  (∀ k, args !! "api_key" = None → connection_args env !! "api_key" = Some k →
        _get_api_key env args = inr k) ∧
  (∀ k, args !! "api_key" = None → connection_args env !! "api_key" = None →
        env_api_key env = Some k → _get_api_key env args = inr (JStr k)) ∧
  (∀ cfg k, args !! "api_key" = None → connection_args env !! "api_key" = None →
            env_api_key env = None → config env !! "openai" = Some cfg →
            cfg !! "api_key" = Some k → _get_api_key env args = inr k) ∧
  (_get_api_key env args = inl MissingApiKey ↔
     args !! "api_key" = None ∧ connection_args env !! "api_key" = None ∧
     env_api_key env = None ∧
     ∀ cfg, config env !! "openai" = Some cfg → cfg !! "api_key" = None).
Proof.
  unfold _get_api_key, item, ret, raise.
  destruct (has_key args "api_key") eqn:Hargs;
    [apply has_key_true in Hargs as [k0 Hargs]|apply has_key_false in Hargs]; rewrite Hargs.
  { intuition congruence. }
  destruct (has_key (connection_args env) "api_key") eqn:Hconn;
    [apply has_key_true in Hconn as [k0 Hconn]|apply has_key_false in Hconn]; rewrite ?Hconn.
  { intuition congruence. }
  destruct (env_api_key env) as [k0|] eqn:Henv.
  { intuition congruence. }
  destruct (config env !! "openai") as [cfg|] eqn:Hcfg; simpl.
  - destruct (has_key cfg "api_key") eqn:Hkey;
      [apply has_key_true in Hkey as [k0 Hkey]|apply has_key_false in Hkey]; rewrite ?Hkey;
      naive_solver.
  - assert (has_key (∅ : dict) "api_key" = false) as -> by done.
    naive_solver.
Qed.

Lemma api_key_precedence_witness :
  _get_api_key ada_env (<[ "api_key" := JStr "mine" ]> ada_args) = inr (JStr "mine") ∧
  _get_api_key ada_env ada_args = inr (JStr "key") ∧
  _get_api_key bare_env ada_args = inl MissingApiKey.
Proof.
  split; [|split].
  - destruct (api_key_precedence ada_env (<[ "api_key" := JStr "mine" ]> ada_args))
      as (Hargs & _). by apply Hargs.
  - destruct (api_key_precedence ada_env ada_args) as (_ & Hconn & _). by apply Hconn.
  - destruct (api_key_precedence bare_env ada_args) as (_ & _ & _ & _ & Hnone).
    apply Hnone. by repeat split.
Defined.

(** ** [update] *)

Lemma obj_in_text (members : gset string) (names : list string) :
  obj_in (OFrozenSet members) (OStr <$> names) = false.
Proof. unfold obj_in. by induction names. Qed.

Lemma obj_in_elem_of (x : pyobj) (columns : list pyobj) :
  obj_in x columns = true ↔ x ∈ columns.
Proof.
  unfold obj_in. induction columns as [|y columns IH]; simpl.
  - split; [done|]. by intros ?%elem_of_nil.
  - rewrite elem_of_cons, orb_true_iff, IH.
    assert (obj_eqb x y = true ↔ x = y) as ->; [|done].
    destruct x, y; simpl;
      try (rewrite bool_decide_eq_true; split; [by intros ->|by intros [= ->]]); by split.
Qed.

(** X6: [update] goes on to the fine-tuning steps exactly when one of the
    column labels is the frozen set of the two names, which is what [in]
    makes of the set it is given; it raises on every other frame.  A frame
    whose labels are text, also one that has a [prompt] and a [completion]
    column, is therefore always refused. *)
Theorem update_raises_on_text_labels {A : Type} (fine_tune : update_exn + A) :
  (∀ columns, OFrozenSet {[ "prompt"; "completion" ]} ∉ columns →
              update columns fine_tune = inl PromptCompletionColumnsRequired) ∧
  (∀ columns, OFrozenSet {[ "prompt"; "completion" ]} ∈ columns →
              update columns fine_tune = fine_tune) ∧
  (∀ df : DataFrame, update (column_set df) fine_tune = inl PromptCompletionColumnsRequired).
Proof.
  unfold update. split; [|split].
  - intros columns Hout.
    destruct (obj_in _ columns) eqn:Hin; [|done]. by apply obj_in_elem_of in Hin.
  - intros columns Hin. apply obj_in_elem_of in Hin. by rewrite Hin.
  - intros df. unfold column_set. by rewrite obj_in_text.
Qed.

Lemma update_raises_on_text_labels_witness :
  update (column_set tuning_frame) (inr ()) = inl PromptCompletionColumnsRequired ∧
  update [OStr "prompt"; OStr "completion"] (inr ()) = inl PromptCompletionColumnsRequired ∧
  update [OFrozenSet {[ "completion"; "prompt" ]}] (inr ()) = inr ().
Proof.
  destruct (update_raises_on_text_labels (inr ())) as (Hout & Hin & Htext).
  split; [apply Htext|]. split.
  - apply Hout. intros Hin'. apply obj_in_elem_of in Hin'. by vm_compute in Hin'.
  - apply Hin. apply obj_in_elem_of. by vm_compute.
Defined.

(** ** [_completion]: degenerate batch sizes *)

Section CompletionEdges.

Context {Svc : Type}.
Variable completion_create : Request → Svc → result Completion * Svc.
Variables (self : OpenAIHandler) (model_name max_tokens temperature api_key : json) (args : dict).

Local Abbreviation submit :=
  (λ batch : list cell,
     _submit_completion completion_create model_name batch max_tokens temperature api_key args).

Lemma dispatch_nothing prompts max_batch_size parallel picks st :
  batches prompts max_batch_size = inr [] →
  dispatch submit prompts max_batch_size parallel picks st = (Some (inr None), st).
Proof.
  intros Htodo. unfold dispatch. rewrite Htodo. destruct parallel; [|done].
  by destruct picks.
Qed.

Lemma batches_empty (max_batch_size : Z) :
  max_batch_size ≠ 0 → batches [] max_batch_size = inr [].
Proof.
  intros Hsize. unfold batches, batch_count.
  destruct (Z.eqb_spec max_batch_size 0) as [?|_]; [done|].
  change (Z.of_nat (length (@nil cell)) * 2 ^ 1075) with 0.
  by destruct (0 <=? max_batch_size).
Qed.

(** X7: once the whole list was rejected, a discovered batch size of zero
    makes the call raise [ZeroDivisionError], and a negative one, or an
    empty list of prompts, leaves no batch to submit and makes it raise
    [TypeError] on the missing response; this under either policy, and
    with no request sent after the rejected one. *)
Theorem completion_degenerate_sizes prompts parallel picks st e st1 max_batch_size :
  _submit_completion completion_create model_name prompts max_tokens temperature api_key args st
    = (inl (InvalidRequestError e), st1) →
  discover_max_batch_size self e = inr max_batch_size →
  (max_batch_size = 0 →
     _completion completion_create self model_name prompts max_tokens temperature api_key args
       parallel picks st = (Some (inl ZeroDivisionError), st1)) ∧
  (max_batch_size < 0 ∨ (prompts = [] ∧ max_batch_size ≠ 0) →
     _completion completion_create self model_name prompts max_tokens temperature api_key args
       parallel picks st = (Some (inl TypeError), st1)).
Proof.
  intros Hprobe Hsize. unfold _completion. rewrite Hprobe, Hsize. split.
  - intros ->. unfold dispatch. by destruct parallel.
  - intros Hnone. rewrite dispatch_nothing; [done|].
    destruct Hnone as [Hneg|[-> Hne]]; [|by apply batches_empty].
    destruct (batches_defined prompts max_batch_size) as [todo Htodo]; [lia|].
    rewrite Htodo. f_equal. apply (batches_negative prompts max_batch_size); [lia|done].
Qed.

End CompletionEdges.

Lemma completion_degenerate_sizes_witness :
  _completion (echo 0 None) init (JStr "text-davinci-002") letters (JInt 20) (JFloat 0)
    (JStr "key") ∅ true [] 0%nat = (Some (inl ZeroDivisionError), 1%nat).
Proof.
  destruct (completion_degenerate_sizes (echo 0 None) init (JStr "text-davinci-002") (JInt 20)
              (JFloat 0) (JStr "key") ∅ letters true [] 0%nat (limit_message 0) 1%nat 0)
    as [Hzero _]; [vm_compute; reflexivity..|].
  by apply Hzero.
Defined.

(** ** [_completion] under the sequential policy *)

Section Sequential.

Context {Svc : Type}.
Variable completion_create : Request → Svc → result Completion * Svc.
Variable answers : cell → string → Prop.
Hypothesis contract : ∀ r st c st',
  completion_create r st = (inr c, st') → Forall2 answers (prompt r) (text <$> choices c).
Variables (self : OpenAIHandler) (model_name max_tokens temperature api_key : json) (args : dict).

Local Abbreviation submit :=
  (λ batch : list cell,
     _submit_completion completion_create model_name batch max_tokens temperature api_key args).

Lemma served_concat_answers (todo : list (list cell)) (partials : list Completion) :
  Forall2 (λ batch partial, served submit batch (inr partial)) todo partials →
  Forall2 answers (concat todo) (text <$> concat (choices <$> partials)).
Proof.
  induction 1 as [|batch partial todo partials [st Hst] _ IH]; [constructor|].
  simpl. rewrite fmap_app. apply Forall2_app; [|done].
  unfold _submit_completion in Hst.
  destruct (completion_create _ st) as [out st'] eqn:Hout. simpl in Hst. subst out.
  by apply contract in Hout.
Qed.

Lemma dispatch_sequential_responses prompts max_batch_size picks st merged :
  (dispatch submit prompts max_batch_size false picks st).1 = Some (inr (Some merged)) →
  Forall2 answers prompts (text <$> choices merged).
Proof.
  unfold dispatch.
  destruct (batches prompts max_batch_size) as [e|todo] eqn:Htodo; [done|]. simpl.
  destruct (run_sequential submit todo None st) as [out st'] eqn:Hrun. simpl.
  intros [= ->].
  assert (∃ partials,
            Forall2 (λ batch partial, served submit batch (inr partial)) todo partials ∧
            choices merged = concat (choices <$> partials)) as (partials & Hserved & ->).
  { destruct todo as [|batch todo]; [done|]. simpl in Hrun.
    destruct (_submit_completion _ _ batch _ _ _ _ st) as [[e|first] st1] eqn:Hfirst; [done|].
    apply run_sequential_merge in Hrun as (partials & Hserved & [= ->]).
    exists (first :: partials). split; [|done].
    constructor; [|done]. exists st. by rewrite Hfirst. }
  destruct (batches_concat prompts max_batch_size todo Htodo) as [->|Hconcat].
  - simpl in Hrun. by injection Hrun.
  - rewrite <- Hconcat. by apply served_concat_answers.
Qed.

Lemma run_sequential_returns (todo : list (list cell)) completion st :
  Forall (λ batch, ∀ s, ∃ c s', submit batch s = (inr c, s')) todo →
  ∃ merged st',
    run_sequential submit todo completion st = (inr merged, st') ∧
    (todo ≠ [] → is_Some merged).
Proof.
  intros Hall. revert completion st.
  induction Hall as [|batch todo Hbatch _ IH]; intros completion st; simpl.
  - exists completion, st. by split.
  - destruct (Hbatch st) as (c & s' & ->).
    destruct (IH (Some (merge_sequential completion c)) s') as (merged & st' & Hrun & Hsome).
    exists merged, st'. split; [done|]. intros _.
    destruct todo; [|by apply Hsome]. simpl in Hrun. injection Hrun as <- _. by eauto.
Qed.

(** X8: under the sequential policy too, a list the call returns has one
    completion per prompt, the i-th being the (newline stripped)
    completion the service gave for the i-th prompt; and the call returns
    such a list when the service rejects the whole list with a limit of at
    least one and accepts every batch within it. *)
Theorem completion_sequential_order prompts picks st :
  (∀ out st',
     _completion completion_create self model_name prompts max_tokens temperature api_key args
       false picks st = (Some (inr out), st') →
     length out = length prompts ∧
     ∀ i p, prompts !! i = Some p →
            ∃ raw, answers p raw ∧ out !! i = Some (PyStr.strip nl raw)) ∧
  (∀ e st1 max_batch_size,
     _submit_completion completion_create model_name prompts max_tokens temperature api_key args st
       = (inl (InvalidRequestError e), st1) →
     discover_max_batch_size self e = inr max_batch_size →
     1 ≤ max_batch_size → prompts ≠ [] →
     (∀ r s, prompt r ≠ [] → Z.of_nat (length (prompt r)) ≤ max_batch_size →
             ∃ c s', completion_create r s = (inr c, s')) →
     ∃ out st',
       _completion completion_create self model_name prompts max_tokens temperature api_key args
         false picks st = (Some (inr out), st')).
Proof.
  split.
  - intros out st'. unfold _completion.
    destruct (_submit_completion _ _ prompts _ _ _ _ st) as [[e|c] st1] eqn:Hprobe.
    + destruct e; try done.
      destruct (discover_max_batch_size self user_message) as [e|max_batch_size]; [done|].
      destruct (dispatch submit prompts max_batch_size false picks st1)
        as [[[e|[merged|]]|] st2] eqn:Hdispatch; try done.
      intros Hout. apply (tidy_answers answers (Some merged)); [congruence|].
      apply (dispatch_sequential_responses _ max_batch_size picks st1). by rewrite Hdispatch.
    + intros Hout. apply (tidy_answers answers (Some c)); [congruence|].
      unfold _submit_completion in Hprobe. by apply contract in Hprobe.
  - intros e st1 max_batch_size Hprobe Hsize Hpos Hprompts Haccepts.
    pose proof (rejected_exceeds _ _ _ _ _ _ _ _ _ _ _ Hprobe Hprompts Haccepts) as Hbound.
    unfold _completion. rewrite Hprobe, Hsize. unfold dispatch.
    destruct (batches_slices prompts max_batch_size Hpos Hbound)
      as (todo & -> & Hbatch & Hconcat & _).
    simpl.
    destruct (run_sequential_returns todo None st1) as (merged & st' & -> & Hsome).
    { apply Forall_lookup. intros i batch Hi s.
      destruct (Hbatch i batch Hi) as (_ & Hne & Hle).
      apply (Haccepts (Build_Request model_name batch max_tokens temperature api_key
                         (get args "api_organization" JNull)) s); [|done].
      simpl. intros ->. simpl in Hne. lia. }
    destruct Hsome as [completion ->]; [by intros ->; subst prompts|].
    simpl. by eauto.
Qed.

End Sequential.

Lemma completion_sequential_order_witness :
  ∃ out,
    (_completion (echo 2 None) init (JStr "text-davinci-002") letters (JInt 20) (JFloat 0)
       (JStr "key") ∅ false [] 0%nat).1 = Some (inr out) ∧
    length out = 5%nat ∧
    ∃ raw, echoed (CStr "e") raw ∧ out !! 4%nat = Some (PyStr.strip nl raw).
Proof.
  destruct (completion_sequential_order (echo 2 None) echoed (echo_contract 2 None) init
              (JStr "text-davinci-002") (JInt 20) (JFloat 0) (JStr "key") ∅ letters
              [] 0%nat) as [Hordered Hreturns].
  destruct (Hreturns (limit_message 2) 1%nat 2) as (out & st' & Hout).
  - vm_compute. reflexivity.
  - vm_compute. reflexivity.
  - lia.
  - discriminate.
  - intros r s _. apply (echo_accepts 2).
  - exists out. rewrite Hout. apply Hordered in Hout as [Hlen Hith].
    split; [done|]. split; [done|]. by apply Hith.
Defined.

(** The sequential loop on the two batches of the usage example. *)
Lemma run_sequential_usage_witness :
  ∃ completion,
    (run_sequential
       (λ batch, _submit_completion scripted (JStr "text-davinci-002") batch (JInt 20)
                   (JFloat 0) (JStr "key") ∅)
       [[CStr "a"]; [CStr "b"]] None [inr first_batch; inr second_batch]).1
      = inr (Some completion) ∧
    usage completion
      = {| prompt_tokens := 17; completion_tokens := 8; total_tokens := 25 |}.
Proof.
  destruct (run_sequential_usage
              (λ batch, _submit_completion scripted (JStr "text-davinci-002") batch (JInt 20)
                          (JFloat 0) (JStr "key") ∅)
              [CStr "a"] [[CStr "b"]] [inr first_batch; inr second_batch]
              (Some {| choices := [ {| text := "one" |}; {| text := "two" |} ];
                       usage := {| prompt_tokens := 17; completion_tokens := 8;
                                   total_tokens := 25 |} |}) [])
    as (first & partials & completion & _ & Hmerged & _ & _); [reflexivity|].
  exists completion. injection Hmerged as <-. by split.
Defined.

(** ** The requests that are sent *)

Section Requests.

Context {Svc : Type}.
Variable completion_create : Request → Svc → result Completion * Svc.
Variables (self : OpenAIHandler) (model_name max_tokens temperature api_key : json) (args : dict).

Local Abbreviation request :=
  (λ batch : list cell,
     Build_Request model_name batch max_tokens temperature api_key
       (get args "api_organization" JNull)).

Local Abbreviation submit :=
  (λ batch : list cell,
     _submit_completion (recording completion_create) model_name batch max_tokens temperature
       api_key args).

Lemma submit_recording batch s log :
  (submit batch (s, log)).2.2 = log ++ [request batch].
Proof.
  unfold _submit_completion, recording. simpl. by destruct (completion_create _ s).
Qed.

Lemma foldl_run_task_log order futures st :
  (foldl (run_task submit) (futures, st) order).2.2 = st.2 ++ (request <$> order.*2).
Proof.
  revert futures st. induction order as [|[i batch] order IH]; intros futures [s log]; simpl.
  - by rewrite app_nil_r.
  - unfold run_task at 2. simpl.
    pose proof (submit_recording batch s log) as Hlog. cbv beta in Hlog.
    destruct (_submit_completion _ _ batch _ _ _ _ (s, log)) as [out st1].
    rewrite IH. simpl in Hlog. rewrite Hlog. by rewrite <- app_assoc.
Qed.

Lemma tasks_batches {A : Type} (todo : list A) : (imap (λ i b, (i, b)) todo).*2 = todo.
Proof.
  rewrite fmap_imap. rewrite (imap_ext _ (const id)) by done.
  by rewrite imap_const, list_fmap_id.
Qed.

Lemma submit_all_log todo st :
  (submit_all submit todo st).2.2 = st.2 ++ (request <$> todo).
Proof.
  revert st. induction todo as [|batch todo IH]; intros [s log]; simpl.
  - by rewrite app_nil_r.
  - pose proof (submit_recording batch s log) as Hlog. cbv beta in Hlog.
    destruct (_submit_completion _ _ batch _ _ _ _ (s, log)) as [out st1].
    pose proof (IH st1) as Hrest.
    destruct (submit_all _ todo st1) as [outs st2]. simpl in *.
    by rewrite Hrest, Hlog, <- app_assoc.
Qed.

(** The sequential loop submits the batches up to the first that fails,
    and no other. *)
Lemma run_sequential_trace todo completion st :
  ∃ (n : nat) partials,
    (n ≤ length todo)%nat ∧
    (run_sequential submit todo completion st).2 = (submit_all submit (take n todo) st).2 ∧
    match (run_sequential submit todo completion st).1 with
    | inr _ => n = length todo ∧ (submit_all submit (take n todo) st).1 = inr <$> partials
    | inl err => (submit_all submit (take n todo) st).1 = (inr <$> partials) ++ [inl err]
    end.
Proof.
  revert completion st. induction todo as [|batch todo IH]; intros completion st.
  - by exists 0%nat, [].
  - cbn [run_sequential].
    destruct (_submit_completion _ _ batch _ _ _ _ st) as [[e|partial] st1] eqn:Hsubmit.
    + exists 1%nat, []. cbn [take submit_all]. rewrite Hsubmit, take_0. simpl.
      split; [lia|done].
    + destruct (IH (Some (merge_sequential completion partial)) st1)
        as (n & partials & Hn & Hstate & Hout).
      exists (S n), (partial :: partials). cbn [take submit_all]. rewrite Hsubmit.
      destruct (submit_all _ (take n todo) st1) as [outs st2]. simpl in *.
      split; [lia|]. split; [done|].
      destruct (run_sequential _ todo _ st1).1; simpl.
      * by rewrite Hout.
      * destruct Hout as [-> ->]. done.
Qed.

(** X10: under the thread pool, once the whole list was rejected, every
    batch is sent to the service exactly once, whether or not some batch
    fails: the requests sent after the rejected one are those of the
    batches, in some order. *)
Theorem pool_sends_every_batch_once prompts picks st e st1 max_batch_size todo :
  _submit_completion (recording completion_create) model_name prompts max_tokens temperature
    api_key args st = (inl (InvalidRequestError e), st1) →
  discover_max_batch_size self e = inr max_batch_size →
  batches prompts max_batch_size = inr todo →
  ∃ sent,
    (_completion (recording completion_create) self model_name prompts max_tokens temperature
       api_key args true picks st).2.2 = st.2 ++ request prompts :: sent ∧
    sent ≡ₚ request <$> todo.
Proof.
  intros Hprobe Hsize Htodo.
  pose proof (submit_recording prompts st.1 st.2) as Hlog. cbv beta in Hlog.
  destruct st as [s log]. simpl in Hlog. rewrite Hprobe in Hlog. simpl in Hlog.
  unfold _completion. rewrite Hprobe, Hsize. unfold dispatch. rewrite Htodo. simpl.
  destruct (run_pool_foldl submit picks (imap (λ i b, (i, b)) todo) (∅, st1))
    as (order & Hperm & Hrun).
  pose proof (foldl_run_task_log order ∅ st1) as Hsent. rewrite <- Hrun in Hsent.
  destruct (run_pool submit picks _ _) as [futures st2]. simpl in Hsent.
  exists (request <$> order.*2). split.
  - destruct (gather futures _ None) as [[?|?]|]; simpl; rewrite Hsent, Hlog;
      by rewrite <- app_assoc.
  - by rewrite Hperm, tasks_batches.
Qed.

(** X11: under the sequential policy the batches are submitted in their
    order, each in the state the one before left the service in, and the
    first failure ends the sending.  With n the number of batches sent up
    to and including the first whose submission raised, or of all batches
    when none did: the service ends as these n submissions leave it, the
    requests it saw after the rejected one are those of the first n
    batches, and the call raises the exception of the n-th submission, or
    returns a list when none raised. *)
Theorem sequential_sends_until_failure prompts picks st e st1 max_batch_size todo :
  _submit_completion (recording completion_create) model_name prompts max_tokens temperature
    api_key args st = (inl (InvalidRequestError e), st1) →
  discover_max_batch_size self e = inr max_batch_size →
  batches prompts max_batch_size = inr todo → todo ≠ [] →
  ∃ (n : nat) partials,
    (n ≤ length todo)%nat ∧
    (_completion (recording completion_create) self model_name prompts max_tokens temperature
       api_key args false picks st).2
      = (submit_all submit (take n todo) st1).2 ∧
    (_completion (recording completion_create) self model_name prompts max_tokens temperature
       api_key args false picks st).2.2
      = st.2 ++ request prompts :: (request <$> take n todo) ∧
    ((n = length todo ∧
      (submit_all submit (take n todo) st1).1 = inr <$> partials ∧
      ∃ out, (_completion (recording completion_create) self model_name prompts max_tokens
                temperature api_key args false picks st).1 = Some (inr out)) ∨
     (∃ err,
        (submit_all submit (take n todo) st1).1 = (inr <$> partials) ++ [inl err] ∧
        (_completion (recording completion_create) self model_name prompts max_tokens
           temperature api_key args false picks st).1 = Some (inl err))).
Proof.
  intros Hprobe Hsize Htodo Hsome.
  pose proof (submit_recording prompts st.1 st.2) as Hlog. cbv beta in Hlog.
  destruct st as [s log]. simpl in Hlog. rewrite Hprobe in Hlog. simpl in Hlog.
  unfold _completion. rewrite Hprobe, Hsize. unfold dispatch. rewrite Htodo. simpl.
  destruct (run_sequential_trace todo None st1) as (n & partials & Hn & Hstate & Hout).
  pose proof (submit_all_log (take n todo) st1) as Hsent.
  destruct (run_sequential submit todo None st1) as [[err|merged] st2] eqn:Hrun; simpl in *.
  - exists n, partials. rewrite <- Hstate in Hsent. simpl in Hsent.
    rewrite Hsent, Hlog, <- app_assoc. repeat split; try done. right. by exists err.
  - exists n, partials. destruct Hout as [-> Hout].
    assert (is_Some merged) as [completion ->].
    { destruct todo as [|batch todo']; [done|]. simpl in Hrun.
      destruct (_submit_completion _ _ batch _ _ _ _ st1) as [[?|first] st3]; [done|].
      apply run_sequential_merge in Hrun as (? & _ & ->). by eexists. }
    rewrite <- Hstate in Hsent. simpl in *.
    rewrite Hsent, Hlog, <- app_assoc. repeat split; try done. left. by eauto.
Qed.

End Requests.

Lemma pool_sends_every_batch_once_witness :
  ∃ sent,
    (_completion (recording (echo 2 (Some "c"))) init (JStr "text-davinci-002") letters (JInt 20)
       (JFloat 0) (JStr "key") ∅ true [2%nat; 0%nat] (0%nat, [])).2.2
      = Build_Request (JStr "text-davinci-002") letters (JInt 20) (JFloat 0) (JStr "key") JNull
        :: sent ∧
    length sent = 3%nat.
Proof.
  destruct (pool_sends_every_batch_once (echo 2 (Some "c")) init (JStr "text-davinci-002")
              (JInt 20) (JFloat 0) (JStr "key") ∅ letters [2%nat; 0%nat] (0%nat, [])
              (limit_message 2)
              (1%nat, [Build_Request (JStr "text-davinci-002") letters (JInt 20) (JFloat 0)
                         (JStr "key") JNull])
              2 [[CStr "a"; CStr "b"]; [CStr "c"; CStr "d"]; [CStr "e"]])
    as (sent & Hsent & Hperm); [vm_compute; reflexivity..|].
  exists sent. split; [done|]. apply Permutation_length in Hperm. by rewrite Hperm.
Defined.

(** With the third prompt refused, the second of the three batches is
    the last that is sent. *)
Lemma sequential_sends_until_failure_witness :
  ∃ (n : nat) partials,
    (submit_all
       (λ batch, _submit_completion (recording (echo 2 (Some "c"))) (JStr "text-davinci-002")
                   batch (JInt 20) (JFloat 0) (JStr "key") ∅)
       (take n [[CStr "a"; CStr "b"]; [CStr "c"; CStr "d"]; [CStr "e"]])
       (1%nat, [Build_Request (JStr "text-davinci-002") letters (JInt 20) (JFloat 0)
                  (JStr "key") JNull])).1
      = (inr <$> partials) ++ [inl (ServiceError "refused")] ∧
    (n ≤ 3)%nat.
Proof.
  destruct (sequential_sends_until_failure (echo 2 (Some "c")) init (JStr "text-davinci-002")
              (JInt 20) (JFloat 0) (JStr "key") ∅ letters [] (0%nat, [])
              (limit_message 2)
              (1%nat, [Build_Request (JStr "text-davinci-002") letters (JInt 20) (JFloat 0)
                         (JStr "key") JNull])
              2 [[CStr "a"; CStr "b"]; [CStr "c"; CStr "d"]; [CStr "e"]])
    as (n & partials & Hn & _ & _ & Hout); [vm_compute; reflexivity..|done|].
  exists n, partials.
  destruct Hout as [(_ & _ & out & Hout)|(err & Hsent & Hraised)].
  - vm_compute in Hout. discriminate.
  - assert (err = ServiceError "refused") as -> by (vm_compute in Hraised; congruence).
    by split.
Defined.

(** ** The two policies compared *)

Lemma tidy_same_choices (a b : option Completion) : same_choices a b → _tidy a = _tidy b.
Proof. destruct a, b; simpl; try done. by intros ->. Qed.

Lemma fold_outcomes_same_choices (a b : option Completion) (outcomes : list (result Completion)) :
  same_choices a b →
  match fold_outcomes merge_parallel a outcomes, fold_outcomes merge_sequential b outcomes with
  | inl e, inl e' => e = e'
  | inr x, inr y => same_choices x y
  | _, _ => False
  end.
Proof.
  revert a b. induction outcomes as [|[e|c] outcomes IH]; intros a b Hab; simpl; [done..|].
  apply IH. destruct a, b; simpl in *; try done. by rewrite Hab.
Qed.

Lemma gather_fold_outcomes futures (n : nat) (outcomes : list (result Completion)) completion :
  (∀ i out, outcomes !! i = Some out → futures !! (n + i)%nat = Some out) →
  gather futures (seq n (length outcomes)) completion
  = Some (fold_outcomes merge_parallel completion outcomes).
Proof.
  revert n completion. induction outcomes as [|out outcomes IH]; intros n completion Hfut; [done|].
  simpl. rewrite <- (Nat.add_0_r n) at 1. rewrite (Hfut 0%nat out) by done.
  destruct out as [e|c]; [done|]. apply IH. intros i out Hi.
  replace (S n + i)%nat with (n + S i)%nat by lia. by apply Hfut.
Qed.

Section Policies.

Context {Svc : Type}.
Variable completion_create : Request → Svc → result Completion * Svc.

(** A service whose answer to a request does not depend on what it was
    asked before. *)
Hypothesis stateless : ∀ r s s', (completion_create r s).1 = (completion_create r s').1.

Variables (self : OpenAIHandler) (model_name max_tokens temperature api_key : json) (args : dict).

Local Abbreviation submit :=
  (λ batch : list cell,
     _submit_completion completion_create model_name batch max_tokens temperature api_key args).

Lemma run_sequential_fold_outcomes (todo : list (list cell)) completion st st0 :
  (run_sequential submit todo completion st).1
  = fold_outcomes merge_sequential completion ((λ batch, (submit batch st0).1) <$> todo).
Proof.
  revert completion st. induction todo as [|batch todo IH]; intros completion st; [done|].
  simpl. unfold _submit_completion at 1 3. rewrite (stateless _ st0 st).
  destruct (completion_create _ st) as [[e|c] st1]; simpl; [done|]. apply IH.
Qed.

(** X12: with a service whose answers do not depend on its state, the
    policy changes nothing the caller sees: for every order in which the
    pool serves the batches, the call under the thread pool returns the
    same list, or raises the same exception, as the sequential call. *)
Theorem policies_agree prompts picks picks' st :
  (_completion completion_create self model_name prompts max_tokens temperature api_key args
     true picks st).1
  = (_completion completion_create self model_name prompts max_tokens temperature api_key args
       false picks' st).1.
Proof.
  unfold _completion.
  destruct (_submit_completion _ _ prompts _ _ _ _ st) as [[e|c] st1]; [|done].
  destruct e; try done.
  destruct (discover_max_batch_size self user_message) as [e|max_batch_size]; [done|].
  unfold dispatch. destruct (batches prompts max_batch_size) as [e|todo]; [done|]. simpl.
  pose proof (run_sequential_fold_outcomes todo None st1 st1) as Hseq.
  destruct (run_sequential submit todo None st1) as [sequential st2]. simpl in Hseq.
  assert (gather (run_pool submit picks (imap (λ i b, (i, b)) todo) (∅, st1)).1
            (seq 0 (length todo)) None
          = Some (fold_outcomes merge_parallel None ((λ batch, (submit batch st1).1) <$> todo)))
    as Hpool.
  { rewrite <- (length_fmap (λ batch, (submit batch st1).1) todo).
    apply gather_fold_outcomes. intros i out Hi.
    apply list_lookup_fmap_Some in Hi as (batch & -> & Hi).
    destruct (run_pool_complete submit picks todo st1 i batch Hi) as (out & Hout & s & <-).
    rewrite Nat.add_0_l, Hout. unfold _submit_completion. by rewrite (stateless _ s st1). }
  destruct (run_pool submit picks _ _) as [futures st3]. simpl in Hpool. rewrite Hpool.
  pose proof (fold_outcomes_same_choices None None
                ((λ batch, (submit batch st1).1) <$> todo) I) as Hsame.
  cbv beta in *. rewrite <- Hseq in Hsame.
  destruct (fold_outcomes merge_parallel None _) as [e|parallel], sequential as [e'|sequential];
    simpl in *; try done; [by subst|].
  by rewrite (tidy_same_choices _ _ Hsame).
Qed.

End Policies.

Lemma policies_agree_witness :
  (_completion (λ r (_ : unit), ((echo 2 (Some "e") r 0%nat).1, ())) init
     (JStr "text-davinci-002") letters (JInt 20) (JFloat 0) (JStr "key") ∅ true [1%nat] ()).1
  = (_completion (λ r (_ : unit), ((echo 2 (Some "e") r 0%nat).1, ())) init
       (JStr "text-davinci-002") letters (JInt 20) (JFloat 0) (JStr "key") ∅ false [] ()).1.
Proof. by apply policies_agree. Defined.

(** ** [predict]: what is set up before the prompts are built *)

Lemma clamp_temperature (v t1 t : json) :
  py_max (JFloat 0) v = inr t1 → py_min (JFloat 1) t1 = inr t →
  ∃ q, number t = Some q ∧ (0 <= q)%Q ∧ (q <= 1)%Q.
Proof.
  unfold py_max, py_min. simpl.
  destruct (number v) as [y|] eqn:Hv; [|done].
  intros [= <-].
  destruct (Qlt_le_dec 0 y) as [Hpos|Hneg].
  - rewrite Hv. intros [= <-]. destruct (Qlt_le_dec y 1) as [Hlt|Hge].
    + exists y. split; [done|]. split; by apply Qlt_le_weak.
    + exists 1%Q. by split.
  - simpl. intros [= <-]. destruct (Qlt_le_dec 0 1) as [_|Hge]; [|done].
    exists 0%Q. by split.
Qed.

Lemma predict_setup_values self env df call_args stored pred_args args model_name temperature
    max_tokens :
  model_storage env !! "args" = Some stored →
  predict_setup self env df call_args = inr (pred_args, args, model_name, temperature, max_tokens) →
  args = stored ∧
  model_name = get stored "model_name" (JStr (default_model self)) ∧
  max_tokens = get pred_args "max_tokens" (get stored "max_tokens" (JInt (default_max_tokens self))) ∧
  ∃ q, number temperature = Some q ∧ (0 <= q)%Q ∧ (q <= 1)%Q.
Proof.
  intros Hstored. unfold predict_setup. rewrite Hstored.
  destruct (match call_args with Some _ => _ | None => _ end) as [e|pa]; simpl; [done|].
  do 2 match goal with
       | |- bind ?m _ = _ → _ => destruct m as [?|[]]; simpl; [done|]
       end.
  destruct (py_max _ _) as [e|t1] eqn:Hmax; simpl; [done|].
  destruct (py_min _ t1) as [e|t] eqn:Hmin; simpl; [done|].
  intros [= <- <- <- <- <-]. repeat split. by eapply clamp_temperature.
Qed.





(** ** [predict]: one completion per row *)

Lemma for_each_inr {A B : Type} (f : A → result B) (xs : list A) (ys : list B) :
  for_each f xs = inr ys ↔ Forall2 (λ x y, f x = inr y) xs ys.
Proof.
  revert ys. induction xs as [|x xs IH]; intros ys; simpl.
  - split; [by intros [= <-]; constructor|by inversion 1].
  - split.
    + destruct (f x) as [e|y] eqn:Hx; simpl; [done|].
      destruct (for_each f xs) as [e|ys'] eqn:Hxs; simpl; [done|].
      intros [= <-]. constructor; [done|]. by apply IH.
    + intros Hall. apply Forall2_cons_inv_l in Hall as (y & ys' & Hy & Hrest & ->).
      apply IH in Hrest. by rewrite Hy, Hrest.
Qed.

Lemma build_prompts_question stored pred_args df question col :
  truthy (get stored "prompt_template" (JBool false)) = false →
  truthy (get stored "context_column" (JBool false)) = false →
  stored !! "question_column" = Some (JStr question) →
  cols df !! question = Some col →
  build_prompts stored pred_args df
  = (let* questions := for_each str col in ret (CStr <$> questions), df).
Proof.
  intros Htemplate Hcontext Hquestion Hcol. unfold build_prompts.
  rewrite Htemplate, Hcontext. unfold item, column_of, column, item.
  rewrite Hquestion. simpl. by rewrite Hcol.
Qed.

Lemma build_prompts_context stored pred_args df context question contexts questions :
  truthy (get stored "prompt_template" (JBool false)) = false →
  truthy (get stored "context_column" (JBool false)) = true →
  stored !! "context_column" = Some (JStr context) →
  stored !! "question_column" = Some (JStr question) →
  cols df !! context = Some contexts →
  cols df !! question = Some questions →
  build_prompts stored pred_args df
  = (let* contexts := for_each str contexts in
     let* questions := for_each str questions in
     ret ((λ cq, CStr ("Context: " +:+ cq.1 +:+ nl +:+ "Question: " +:+ cq.2 +:+ nl
                         +:+ "Answer: "))
            <$> zip contexts questions), df).
Proof.
  intros Htemplate Htruthy Hcontext Hquestion Hcontexts Hquestions. unfold build_prompts.
  rewrite Htemplate, Htruthy. unfold item, column_of, column, item.
  rewrite Hcontext. simpl. rewrite Hcontexts. simpl.
  destruct (for_each str contexts); simpl; [done|].
  rewrite Hquestion. simpl. by rewrite Hquestions.
Qed.

Section PredictRows.

Context {Svc : Type}.
Variable completion_create : Request → Svc → result Completion * Svc.
Variable answers : cell → string → Prop.
Hypothesis contract : ∀ r st c st',
  completion_create r st = (inr c, st') → Forall2 answers (prompt r) (text <$> choices c).

Lemma predict_rows self env df call_args picks st stored pf df' st' :
  model_storage env !! "args" = Some stored →
  predict completion_create self env df call_args picks st = (Some (inr pf), df', st') →
  ∃ pred_args prompts,
    build_prompts stored pred_args df = (inr prompts, df') ∧
    stored !! "target" = Some (label pf) ∧
    length (rows pf) = length prompts ∧
    ∀ i p, prompts !! i = Some p →
           ∃ raw, answers p raw ∧ rows pf !! i = Some (PyStr.strip nl raw).
Proof.
  intros Hstored. unfold predict.
  destruct (predict_setup self env df call_args)
    as [e|[[[[pred_args args] model_name] temperature] max_tokens]] eqn:Hsetup; [done|].
  apply (predict_setup_args _ _ _ _ stored) in Hsetup as ->; [|done].
  destruct (build_prompts stored pred_args df) as [[e|prompts] df1] eqn:Hbuild; [done|].
  destruct (_get_api_key env stored) as [e|api_key]; [done|].
  destruct (_completion _ _ _ _ _ _ _ _ _ _ _) as [[[e|completion]|] st1] eqn:Hcompletion;
    try done.
  unfold item. destruct (stored !! "target") as [target|]; [|done]. simpl.
  intros [= <- <- <-]. exists pred_args, prompts. simpl.
  split; [done|]. split; [done|].
  by apply (completion_returned completion_create answers contract self model_name max_tokens
              temperature api_key stored prompts picks st completion st1).
Qed.

(** X14: in question-only mode a frame of completions that [predict]
    returns is labelled with the stored target and has one row per cell
    of the question column, in the order of the column: [str] has given a
    text for every cell, and row i is the (newline stripped) completion
    the service gave for the text of cell i; the frame handed in is not
    changed.  The texts are [None] and [nan] for the two missing values,
    [True] and [False], the decimal form of an integer, and a text
    itself. *)
Theorem predict_question_rows self env df call_args picks st stored question col pf df' st' :
  model_storage env !! "args" = Some stored →
  truthy (get stored "prompt_template" (JBool false)) = false →
  truthy (get stored "context_column" (JBool false)) = false →
  stored !! "question_column" = Some (JStr question) →
  cols df !! question = Some col →
  predict completion_create self env df call_args picks st = (Some (inr pf), df', st') →
  df' = df ∧ stored !! "target" = Some (label pf) ∧
  length (rows pf) = length col ∧
  (∀ i x, col !! i = Some x →
     ∃ s raw, str x = inr s ∧ answers (CStr s) raw ∧
              rows pf !! i = Some (PyStr.strip nl raw)) ∧
  str CNone = inr "None" ∧ str CNaN = inr "nan" ∧
  str (CBool true) = inr "True" ∧ str (CBool false) = inr "False" ∧
  (∀ s, str (CStr s) = inr s) ∧
  (∀ z s, str (CInt z) = inr s → s = pretty z).
Proof.
  intros Hstored Htemplate Hcontext Hquestion Hcol Hpredict.
  destruct (predict_rows _ _ _ _ _ _ _ _ _ _ Hstored Hpredict)
    as (pred_args & prompts & Hbuild & Htarget & Hlen & Hrows).
  rewrite (build_prompts_question _ _ _ _ _ Htemplate Hcontext Hquestion Hcol) in Hbuild.
  destruct (for_each str col) as [e|texts] eqn:Htexts; [done|].
  apply for_each_inr in Htexts. simpl in Hbuild. injection Hbuild as <- <-.
  rewrite length_fmap in Hlen. rewrite <- (Forall2_length _ _ _ Htexts) in Hlen.
  split; [done|]. split; [done|]. split; [done|]. split.
  - intros i x Hx.
    destruct (Forall2_lookup_l _ _ _ _ _ Htexts Hx) as (s & Hs & Hstr).
    destruct (Hrows i (CStr s)) as (raw & Hraw & Hrow); [by rewrite list_lookup_fmap, Hs|].
    by exists s, raw.
  - repeat split; try done. intros z s. simpl.
    destruct (_ <=? _)%nat; [by intros [= <-]|done].
Qed.

(** X15: in question-and-context mode [str] has given a text for every
    cell of the two columns, and row i of the returned frame is the
    completion for the prompt "Context: c / Question: q / Answer: " made
    of the texts of cell i of the context column and of the question
    column, the three parts separated by newlines; there are as many rows
    as the shorter column has cells, and the frame handed in is not
    changed. *)
Theorem predict_context_rows self env df call_args picks st stored context question
    contexts questions pf df' st' :
  model_storage env !! "args" = Some stored →
  truthy (get stored "prompt_template" (JBool false)) = false →
  truthy (get stored "context_column" (JBool false)) = true →
  stored !! "context_column" = Some (JStr context) →
  stored !! "question_column" = Some (JStr question) →
  cols df !! context = Some contexts →
  cols df !! question = Some questions →
  predict completion_create self env df call_args picks st = (Some (inr pf), df', st') →
  df' = df ∧
  length (rows pf) = (length contexts `min` length questions)%nat ∧
  ∀ i c q, contexts !! i = Some c → questions !! i = Some q →
    ∃ tc tq raw,
      str c = inr tc ∧ str q = inr tq ∧
      answers (CStr ("Context: " +:+ tc +:+ nl +:+ "Question: " +:+ tq +:+ nl
                       +:+ "Answer: ")) raw ∧
      rows pf !! i = Some (PyStr.strip nl raw).
Proof.
  intros Hstored Htemplate Htruthy Hcontext Hquestion Hcontexts Hquestions Hpredict.
  destruct (predict_rows _ _ _ _ _ _ _ _ _ _ Hstored Hpredict)
    as (pred_args & prompts & Hbuild & Htarget & Hlen & Hrows).
  rewrite (build_prompts_context _ _ _ _ _ _ _ Htemplate Htruthy Hcontext Hquestion
             Hcontexts Hquestions) in Hbuild.
  destruct (for_each str contexts) as [e|tcs] eqn:Htcs; [done|].
  destruct (for_each str questions) as [e|tqs] eqn:Htqs; [done|].
  apply for_each_inr in Htcs, Htqs. simpl in Hbuild. injection Hbuild as <- <-.
  rewrite length_fmap, length_zip in Hlen.
  rewrite <- (Forall2_length _ _ _ Htcs), <- (Forall2_length _ _ _ Htqs) in Hlen.
  repeat split; try done.
  intros i c q Hc Hq.
  destruct (Forall2_lookup_l _ _ _ _ _ Htcs Hc) as (tc & Htc & Hstrc).
  destruct (Forall2_lookup_l _ _ _ _ _ Htqs Hq) as (tq & Htq & Hstrq).
  destruct (Hrows i (CStr ("Context: " +:+ tc +:+ nl +:+ "Question: " +:+ tq +:+ nl
                             +:+ "Answer: "))) as (raw & Hraw & Hrow).
  { rewrite list_lookup_fmap.
    assert (zip tcs tqs !! i = Some (tc, tq)) as ->; [|done].
    apply lookup_zip_with_Some. by exists tc, tq. }
  by exists tc, tq, raw.
Qed.

End PredictRows.

Lemma predict_question_rows_witness :
  ∃ pf,
    (predict (echo 2 None) init question_env mixed_frame None [1%nat] 0%nat).1.1
      = Some (inr pf) ∧
    label pf = JStr "answer" ∧ length (rows pf) = 3%nat ∧
    ∃ raw, echoed (CStr "nan") raw ∧ rows pf !! 2%nat = Some (PyStr.strip nl raw).
Proof.
  destruct (predict (echo 2 None) init question_env mixed_frame None [1%nat] 0%nat)
    as [[outcome df'] st'] eqn:Hpredict.
  assert (∃ pf, outcome = Some (inr pf)) as [pf ->].
  { vm_compute in Hpredict. injection Hpredict as <- _ _. by eexists. }
  destruct (predict_question_rows (echo 2 None) echoed (echo_contract 2 None) init question_env
              mixed_frame None [1%nat] 0%nat question_args "age" [CInt 30; CStr "old"; CNaN]
              pf df' st') as (_ & Htarget & Hlen & Hrows & _); [reflexivity..|done|].
  exists pf. split; [done|]. split; [by injection Htarget|]. split; [done|].
  destruct (Hrows 2%nat CNaN) as (s & raw & Hs & Hraw & Hrow); [done|].
  injection Hs as <-. by exists raw.
Defined.

Lemma predict_context_rows_witness :
  ∃ pf,
    (predict (echo 2 None) init context_env mixed_frame None [] 0%nat).1.1 = Some (inr pf) ∧
    length (rows pf) = 3%nat.
Proof.
  destruct (predict (echo 2 None) init context_env mixed_frame None [] 0%nat)
    as [[outcome df'] st'] eqn:Hpredict.
  assert (∃ pf, outcome = Some (inr pf)) as [pf ->].
  { vm_compute in Hpredict. injection Hpredict as <- _ _. by eexists. }
  destruct (predict_context_rows (echo 2 None) echoed (echo_contract 2 None) init context_env
              mixed_frame None [] 0%nat context_args "name" "age"
              [CStr "Ada"; CNone; CBool true] [CInt 30; CStr "old"; CNaN]
              pf df' st') as (_ & Hlen & _); [reflexivity..|done|].
  by exists pf.
Defined.

(** ** [predict]: what is left untouched *)

Lemma build_prompts_without_template stored pred_args df r df' :
  truthy (get stored "prompt_template" (JBool false)) = false →
  build_prompts stored pred_args df = (r, df') → df' = df.
Proof.
  intros Htemplate. unfold build_prompts. rewrite Htemplate.
  destruct (truthy (get stored "context_column" (JBool false))); by intros [= _ <-].
Qed.

(** X16: without a prompt template [predict] hands the frame back as it
    got it, whatever the outcome of the call. *)
Theorem predict_frame_without_template {Svc : Type}
    (completion_create : Request → Svc → result Completion * Svc)
    self env df call_args picks st stored outcome df' st' :
  model_storage env !! "args" = Some stored →
  truthy (get stored "prompt_template" (JBool false)) = false →
  predict completion_create self env df call_args picks st = (outcome, df', st') →
  df' = df.
Proof.
  intros Hstored Htemplate. unfold predict.
  destruct (predict_setup self env df call_args)
    as [e|[[[[pred_args args] model_name] temperature] max_tokens]] eqn:Hsetup;
    [by intros [= _ <- _]|].
  apply (predict_setup_args _ _ _ _ stored) in Hsetup as ->; [|done].
  destruct (build_prompts stored pred_args df) as [[e|prompts] df1] eqn:Hbuild;
    apply build_prompts_without_template in Hbuild as ->; try done; [by intros [= _ <- _]|].
  destruct (_get_api_key env stored) as [e|api_key]; [by intros [= _ <- _]|].
  destruct (_completion _ _ _ _ _ _ _ _ _ _ _) as [[[e|completion]|] st1];
    by intros [= _ <- _].
Qed.

Lemma predict_frame_without_template_witness :
  (predict (echo 2 None) init question_env mixed_frame None [] 0%nat).1.2 = mixed_frame.
Proof.
  destruct (predict (echo 2 None) init question_env mixed_frame None [] 0%nat)
    as [[outcome df'] st'] eqn:Hpredict. simpl.
  by apply (predict_frame_without_template (echo 2 None) init question_env mixed_frame None []
              0%nat question_args outcome df' st').
Defined.

(** A call that fails for want of an API key, after the prompt column
    was written. *)
Lemma predict_frame_witness :
  ∃ df',
    predict (echo 2 None) init keyless_env ada_frame None [] 0%nat
      = (Some (inl MissingApiKey), df', 0%nat) ∧
    cols df' !! "__mdb_prompt" = Some [CStr "Hello Ada, you are 30."] ∧
    cols df' !! "name" = Some [CStr "Ada"] ∧ cols df' !! "age" = Some [CStr "30"].
Proof.
  exists (set_column "__mdb_prompt" [CStr "Hello Ada, you are 30."] ada_frame).
  assert (predict (echo 2 None) init keyless_env ada_frame None [] 0%nat
          = (Some (inl MissingApiKey),
             set_column "__mdb_prompt" [CStr "Hello Ada, you are 30."] ada_frame, 0%nat))
    as Hpredict by (vm_compute; reflexivity).
  split; [done|]. split; [reflexivity|].
  destruct (predict_frame _ _ _ _ _ _ _ _ _ _ Hpredict) as [_ Hcols].
  by rewrite !Hcols.
Defined.

(** X18: [predict] sends nothing to the service before it has found an
    API key: when the lookup of the key raises, the call raises, and the
    service is as it was. *)
Theorem predict_needs_key_before_service {Svc : Type}
    (completion_create : Request → Svc → result Completion * Svc)
    self env df call_args picks st stored err outcome df' st' :
  model_storage env !! "args" = Some stored →
  _get_api_key env stored = inl err →
  predict completion_create self env df call_args picks st = (outcome, df', st') →
  st' = st ∧ ∃ e, outcome = Some (inl e).
Proof.
  intros Hstored Hkey. unfold predict.
  destruct (predict_setup self env df call_args)
    as [e|[[[[pred_args args] model_name] temperature] max_tokens]] eqn:Hsetup;
    [intros [= <- _ <-]; by eauto|].
  apply (predict_setup_args _ _ _ _ stored) in Hsetup as ->; [|done].
  destruct (build_prompts stored pred_args df) as [[e|prompts] df1];
    [intros [= <- _ <-]; by eauto|].
  rewrite Hkey. intros [= <- _ <-]. by eauto.
Qed.

Lemma predict_needs_key_before_service_witness :
  (predict (recording (echo 2 None)) init keyless_env ada_frame None [] (0%nat, [])).2
  = (0%nat, []).
Proof.
  destruct (predict (recording (echo 2 None)) init keyless_env ada_frame None [] (0%nat, []))
    as [[outcome df'] st'] eqn:Hpredict. simpl.
  by apply (predict_needs_key_before_service (recording (echo 2 None)) init keyless_env ada_frame
              None [] (0%nat, []) ada_args MissingApiKey outcome df' st').
Defined.

(** X19: a stored question column that the frame lacks makes [predict]
    raise the handler's own exception for it, and so does, when the
    question column is fine or not in use, a stored context column that
    the frame lacks; the frame and the service are as they were.  A name
    that is not a string is never a column. *)
Theorem predict_expects_columns {Svc : Type}
    (completion_create : Request → Svc → result Completion * Svc)
    self env df picks st stored :
  model_storage env !! "args" = Some stored →
  (∀ question,
     stored !! "question_column" = Some question → truthy question = true →
     in_columns df question = false →
     predict completion_create self env df None picks st
       = (Some (inl (QuestionColumnExpected question)), df, st)) ∧
  (∀ context,
     truthy (get stored "question_column" (JBool false)) = false ∨
       in_columns df (get stored "question_column" (JBool false)) = true →
     stored !! "context_column" = Some context → truthy context = true →
     in_columns df context = false →
     predict completion_create self env df None picks st
       = (Some (inl (ContextColumnExpected context)), df, st)).
Proof.
  intros Hstored. split.
  - intros question Hquestion Htruthy Hmissing.
    unfold predict, predict_setup, get, item. rewrite Hstored. simpl.
    rewrite Hquestion, Htruthy. simpl. by rewrite Hmissing.
  - intros context Hquestion Hcontext Htruthy Hmissing.
    unfold predict, predict_setup, get, item in *. rewrite Hstored. simpl.
    destruct (stored !! "question_column") as [question|]; simpl in *.
    + destruct Hquestion as [->| ->]; simpl.
      * rewrite Hcontext, Htruthy. simpl. by rewrite Hmissing.
      * destruct (truthy question); simpl; rewrite Hcontext, Htruthy; simpl;
          by rewrite Hmissing.
    + rewrite Hcontext, Htruthy. simpl. by rewrite Hmissing.
Qed.

Lemma predict_expects_columns_witness :
  predict (echo 2 None) init question_env tuning_frame None [] 0%nat
    = (Some (inl (QuestionColumnExpected (JStr "age"))), tuning_frame, 0%nat).
Proof.
  destruct (predict_expects_columns (echo 2 None) init question_env tuning_frame [] 0%nat
              question_args) as [Hquestion _]; [reflexivity|].
  by apply Hquestion.
Defined.

(** ** [predict]: the requests it sends *)

Section PredictRequests.

Context {Svc : Type}.
Variable completion_create : Request → Svc → result Completion * Svc.

Lemma completion_requests self model_name prompts max_tokens temperature api_key args picks st :
  ∃ sent,
    (_completion (recording completion_create) self model_name prompts max_tokens temperature
       api_key args true picks st).2.2 = st.2 ++ sent ∧
    Forall (λ r, ∃ batch, r = Build_Request model_name batch max_tokens temperature api_key
                                (get args "api_organization" JNull)) sent.
Proof.
  pose proof (submit_recording completion_create model_name max_tokens temperature api_key args
                prompts st.1 st.2) as Hlog. cbv beta in Hlog.
  destruct st as [s log]. simpl in Hlog. unfold _completion.
  destruct (_submit_completion _ _ prompts _ _ _ _ (s, log)) as [out st1]. simpl in Hlog.
  assert (∃ sent, st1.2 = log ++ sent ∧
            Forall (λ r, ∃ batch, r = Build_Request model_name batch max_tokens temperature
                                        api_key (get args "api_organization" JNull)) sent)
    as Hprobe by (eexists; split; [done|]; repeat constructor; by eexists).
  destruct out as [e|c]; [|done]. destruct e; try done.
  destruct (discover_max_batch_size self user_message) as [e|max_batch_size]; [done|].
  unfold dispatch. destruct (batches prompts max_batch_size) as [e|todo]; [done|]. simpl.
  destruct (run_pool_foldl
              (λ batch, _submit_completion (recording completion_create) model_name batch
                          max_tokens temperature api_key args)
              picks (imap (λ i b, (i, b)) todo) (∅, st1)) as (order & _ & Hrun).
  pose proof (foldl_run_task_log completion_create model_name max_tokens temperature api_key
                args order ∅ st1) as Hsent.
  cbv beta in *. rewrite <- Hrun in Hsent.
  destruct (run_pool _ picks _ _) as [futures st2]. simpl in Hsent.
  exists ([Build_Request model_name prompts max_tokens temperature api_key
             (get args "api_organization" JNull)] ++
          ((λ batch, Build_Request model_name batch max_tokens temperature api_key
                       (get args "api_organization" JNull)) <$> order.*2)).
  split.
  - destruct (gather futures _ None) as [[?|?]|]; simpl; rewrite Hsent, Hlog;
      by rewrite <- app_assoc.
  - apply Forall_app. split; [repeat constructor; by eexists|].
    apply Forall_fmap, Forall_forall. intros batch _. by eexists.
Qed.

(** X20: every request [predict] sends, the first with all the prompts
    and those of the batches alike, carries the stored model name or the
    default one, the stored organization, the key that [_get_api_key]
    finds, and a temperature between 0 and 1. *)
Theorem predict_request_parameters self env df call_args picks st stored outcome df' st' :
  model_storage env !! "args" = Some stored →
  predict (recording completion_create) self env df call_args picks st = (outcome, df', st') →
  ∃ sent,
    st'.2 = st.2 ++ sent ∧
    Forall (λ r,
              model r = get stored "model_name" (JStr (default_model self)) ∧
              organization r = get stored "api_organization" JNull ∧
              _get_api_key env stored = inr (api_key r) ∧
              ∃ q, number (temperature r) = Some q ∧ (0 <= q)%Q ∧ (q <= 1)%Q) sent.
Proof.
  intros Hstored. unfold predict.
  destruct (predict_setup self env df call_args)
    as [e|[[[[pred_args args] model_name] temperature] max_tokens]] eqn:Hsetup.
  { intros [= _ _ <-]. exists []. by rewrite app_nil_r. }
  destruct (predict_setup_values _ _ _ _ _ _ _ _ _ _ Hstored Hsetup) as (-> & -> & _ & Hclamp).
  destruct (build_prompts stored pred_args df) as [[e|prompts] df1].
  { intros [= _ _ <-]. exists []. by rewrite app_nil_r. }
  destruct (_get_api_key env stored) as [e|api_key] eqn:Hkey.
  { intros [= _ _ <-]. exists []. by rewrite app_nil_r. }
  destruct (completion_requests self (get stored "model_name" (JStr (default_model self)))
              prompts max_tokens temperature api_key stored picks st) as (sent & Hsent & Hall).
  destruct (_completion _ _ _ _ _ _ _ _ _ _ _) as [[[e|completion]|] st1];
    intros [= _ _ <-]; exists sent; (split; [done|]);
    (eapply Forall_impl; [exact Hall|]); by intros r [batch ->].
Qed.

End PredictRequests.

Lemma predict_request_parameters_witness :
  ∃ sent,
    (predict (recording (echo 2 None)) init question_env mixed_frame None []
       (0%nat, [])).2.2 = sent ∧
    length sent = 3%nat ∧
    Forall (λ r, model r = JStr "text-davinci-002" ∧ api_key r = JStr "key") sent.
Proof.
  destruct (predict (recording (echo 2 None)) init question_env mixed_frame None []
              (0%nat, [])) as [[outcome df'] st'] eqn:Hpredict.
  destruct (predict_request_parameters (echo 2 None) init question_env mixed_frame None []
              (0%nat, []) question_args outcome df' st') as (sent & Hsent & Hall);
    [reflexivity|done|].
  exists sent. simpl in *. split; [done|]. split.
  - vm_compute in Hpredict. injection Hpredict as _ _ Hst. subst st'. by subst sent.
  - eapply Forall_impl; [exact Hall|]. intros r (Hmodel & _ & Hkey & _).
    split; [done|]. vm_compute in Hkey. by injection Hkey.
Defined.

(** ** The prompt template: its pieces and its rendering *)

Lemma length_spans (matches : list Match) :
  length (matches ≫= (λ m, [m_start m; m_end m])) = (2 * length matches)%nat.
Proof.
  induction matches as [|m matches IH]; [done|].
  rewrite bind_cons, List.length_app, IH. simpl. lia.
Qed.

Lemma length_slice_inner {A : Type} (l : list A) :
  length (slice l 1 (-1)) = (length l - 2)%nat.
Proof.
  unfold slice, PyStr.clamp_index. simpl.
  rewrite length_take, length_drop. lia.
Qed.

Lemma length_slice_from_1 {A : Type} (l : list A) :
  length (slice_from l 1) = (length l - 1)%nat.
Proof. unfold slice_from, PyStr.clamp_index. simpl. rewrite length_drop. lia. Qed.

(** X21: a template in which the pattern finds nothing makes the
    compilation raise [IndexError]; one with k placeholders gives k column
    names, and two pieces when k = 1 but 2k - 1 pieces when k >= 2, so
    that there is one piece more than there are columns only up to two
    placeholders. *)
Theorem compile_template_shape (base_template : string) :
  (finditer base_template = [] → compile_template base_template = inl IndexError) ∧
  (finditer base_template ≠ [] →
     ∃ template columns,
       compile_template base_template = inr (template, columns) ∧
       length columns = length (finditer base_template) ∧
       length template = ((2 * length (finditer base_template) - 1) `max` 2)%nat ∧
       (length template = S (length columns) ↔ (length (finditer base_template) ≤ 2)%nat)).
Proof.
  unfold compile_template. split.
  - by intros ->.
  - intros Hmatches.
    destruct (finditer base_template) as [|m matches] eqn:Hfind; [done|].
    assert (is_Some (last (m :: matches))) as [m' ->].
    { rewrite last_lookup. apply lookup_lt_is_Some. simpl. lia. }
    cbn [head bind ret]. eexists _, _. split; [reflexivity|].
    rewrite length_fmap. split; [done|].
    match goal with
    | |- length ?t = _ ∧ _ =>
        assert (length t = ((2 * length (m :: matches) - 1) `max` 2)%nat) as Hlen
    end.
    { rewrite List.length_app, length_cons.
      rewrite length_fmap, length_zip, length_slice_from_1, length_slice_inner, length_spans.
      simpl. lia. }
    split; [exact Hlen|]. rewrite Hlen. simpl. lia.
Qed.

Lemma compile_template_shape_witness :
  ∃ template columns,
    compile_template "{{a}} and {{b}} and {{c}}" = inr (template, columns) ∧
    length columns = 3%nat ∧ length template = 5%nat.
Proof.
  destruct (compile_template_shape "{{a}} and {{b}} and {{c}}") as [_ Hshape].
  destruct Hshape as (template & columns & Hcompile & Hcolumns & Htemplate & _);
    [vm_compute; discriminate|].
  by exists template, columns.
Defined.

Lemma for_each_add_atom (acc : list string) (atom : string) :
  series_apply (λ x, add x (CStr atom)) (CStr <$> acc) = inr (CStr <$> ((λ a, a +:+ atom) <$> acc)).
Proof.
  unfold series_apply. induction acc as [|a acc IH]; [done|].
  rewrite !fmap_cons. cbn [for_each]. by rewrite IH.
Qed.

Lemma series_add_text (xs ys : list string) :
  series_add (CStr <$> xs) (CStr <$> ys) = inr (CStr <$> zip_with (λ x y, x +:+ y) xs ys).
Proof.
  unfold series_add.
  assert (for_each (λ xy, add xy.1 xy.2) (zip (CStr <$> xs) (CStr <$> ys))
          = inr (CStr <$> zip_with (λ x y, x +:+ y) xs ys)) as ->; [|done].
  revert ys. induction xs as [|x xs IH]; intros [|y ys]; try done.
  rewrite !fmap_cons. cbn [zip zip_with for_each]. by rewrite IH.
Qed.

(** The loop over the pieces, started on a prompt column [acc] and with
    the columns from index [i] on holding text. *)
Lemma render_weave template columns (i : nat) df (acc : list string) (datas : list (list string)) :
  cols df !! "__mdb_prompt" = Some (CStr <$> acc) →
  Forall2 (λ name data,
             name ≠ "__mdb_prompt" ∧ cols df !! name = Some (CStr <$> data) ∧
             length data = length acc) (drop i columns) datas →
  ∃ df' final,
    render template columns i df = (inr (), df') ∧
    cols df' !! "__mdb_prompt" = Some (CStr <$> final) ∧
    length final = length acc ∧
    ∀ k a, acc !! k = Some a → final !! k = Some (a +:+ weave template (row_of k datas)).
Proof.
  revert i df acc datas. induction template as [|atom template IH];
    intros i df acc datas Hprompt Hcolumns.
  - exists df, acc. repeat split; try done. intros k a ->. by rewrite app_empty_r.
  - simpl. unfold column, item. rewrite Hprompt. simpl.
    destruct (columns !! i) as [name|] eqn:Hname.
    + rewrite (drop_S _ _ _ Hname) in Hcolumns.
      apply Forall2_cons_inv_l in Hcolumns
        as (data & datas' & (Hne & Hdata & Hlen) & Hrest & ->).
      rewrite Hdata. simpl. rewrite for_each_add_atom. simpl. rewrite series_add_text. simpl.
      destruct (IH (S i)
                  (set_column "__mdb_prompt"
                     (CStr <$> zip_with (λ x y, x +:+ y) ((λ a, a +:+ atom) <$> acc) data) df)
                  (zip_with (λ x y, x +:+ y) ((λ a, a +:+ atom) <$> acc) data) datas')
        as (df' & final & -> & Hfinal & Hlength & Hweave).
      { simpl. apply lookup_insert_eq. }
      { eapply Forall2_impl; [exact Hrest|]. intros name' data' (Hne' & Hdata' & Hlen').
        split; [done|]. simpl. rewrite lookup_insert_ne by done. split; [done|].
        rewrite length_zip_with, length_fmap. lia. }
      exists df', final. split; [done|]. split; [done|].
      rewrite length_zip_with, length_fmap in Hlength. split; [lia|].
      intros k a Ha.
      destruct (lookup_lt_is_Some_2 data k) as [v Hv].
      { rewrite Hlen. by apply lookup_lt_Some in Ha. }
      rewrite (Hweave k ((a +:+ atom) +:+ v)).
      * unfold row_of. simpl. rewrite Hv. simpl. by rewrite !app_assoc'.
      * apply lookup_zip_with_Some. exists (a +:+ atom), v.
        by rewrite list_lookup_fmap, Ha.
    + rewrite for_each_add_atom. simpl.
      apply lookup_ge_None in Hname. rewrite drop_ge in Hcolumns by done.
      apply Forall2_nil_inv_l in Hcolumns as ->.
      destruct (IH (S i) (set_column "__mdb_prompt" (CStr <$> ((λ a, a +:+ atom) <$> acc)) df)
                  ((λ a, a +:+ atom) <$> acc) [])
        as (df' & final & -> & Hfinal & Hlength & Hweave).
      { simpl. apply lookup_insert_eq. }
      { rewrite drop_ge by lia. constructor. }
      exists df', final. split; [done|]. split; [done|].
      rewrite length_fmap in Hlength. split; [done|].
      intros k a Ha. rewrite (Hweave k (a +:+ atom)).
      * by rewrite app_assoc'.
      * by rewrite list_lookup_fmap, Ha.
Qed.

(** X22: in template mode, when the columns the template names hold
    text, none of them being [__mdb_prompt], the prompt of row k is the
    pieces of the compiled template with the values of row k put after
    them, piece by piece; there is one prompt per row.  The template is
    the one of the prediction parameters when that is set, else the
    stored one. *)
Theorem build_prompts_weaves stored pred_args df base template columns datas :
  truthy (get stored "prompt_template" (JBool false)) = true →
  (if truthy (get pred_args "prompt_template" (JBool false))
   then pred_args !! "prompt_template" else stored !! "prompt_template") = Some (JStr base) →
  compile_template base = inr (template, columns) →
  Forall2 (λ name data,
             name ≠ "__mdb_prompt" ∧ cols df !! name = Some (CStr <$> data) ∧
             length data = nrows df) columns datas →
  ∃ prompts df',
    build_prompts stored pred_args df = (inr prompts, df') ∧
    length prompts = nrows df ∧
    ∀ k, (k < nrows df)%nat → prompts !! k = Some (CStr (weave template (row_of k datas))).
Proof.
  intros Htemplate Hbase Hcompile Hcolumns. unfold build_prompts. rewrite Htemplate.
  assert ((if truthy (get pred_args "prompt_template" (JBool false))
           then item pred_args "prompt_template" else item stored "prompt_template")
          = inr (JStr base)) as ->.
  { unfold item. destruct (truthy (get pred_args _ _)); by rewrite Hbase. }
  simpl. rewrite Hcompile.
  destruct (render_weave template columns 0 (fill_column "__mdb_prompt" (CStr "") df)
              (replicate (nrows df) "") datas) as (df' & final & -> & Hfinal & Hlength & Hweave).
  { simpl. rewrite lookup_insert_eq. by rewrite fmap_replicate. }
  { rewrite drop_0. eapply Forall2_impl; [exact Hcolumns|].
    intros name data (Hne & Hdata & Hlen). split; [done|]. simpl.
    rewrite lookup_insert_ne by done. by rewrite length_replicate. }
  unfold column, item. rewrite Hfinal. simpl. eexists _, _. split; [reflexivity|].
  rewrite length_replicate in Hlength. split; [by rewrite length_fmap|].
  intros k Hk. rewrite list_lookup_fmap.
  rewrite (Hweave k ""); [done|]. by apply lookup_replicate_2.
Qed.

Lemma build_prompts_weaves_witness :
  ∃ prompts,
    (build_prompts ada_args ∅ ada_frame).1 = inr prompts ∧
    prompts !! 0%nat = Some (CStr "Hello Ada, you are 30.").
Proof.
  destruct (build_prompts_weaves ada_args ∅ ada_frame ada_template
              ["Hello "; ", you are "; "."] ["name"; "age"] [["Ada"]; ["30"]])
    as (prompts & df' & Hbuild & _ & Hrows); [reflexivity..| |].
  - repeat constructor; done.
  - exists prompts. rewrite Hbuild. split; [done|]. apply (Hrows 0%nat). simpl. lia.
Defined.

(** ** [_completion]: the first request *)

(** X23: when the service answers the request with all the prompts, the
    call returns the stripped texts of that answer and sends nothing
    else, under either policy; and when that request fails with anything
    but an [InvalidRequestError], the call raises that exception, again
    with nothing else sent. *)
Theorem completion_first_request {Svc : Type}
    (completion_create : Request → Svc → result Completion * Svc)
    self model_name prompts max_tokens temperature api_key args parallel picks st out st1 :
  _submit_completion (recording completion_create) model_name prompts max_tokens temperature
    api_key args st = (out, st1) →
  st1.2 = st.2 ++ [Build_Request model_name prompts max_tokens temperature api_key
                     (get args "api_organization" JNull)] ∧
  (∀ c, out = inr c →
     _completion (recording completion_create) self model_name prompts max_tokens temperature
       api_key args parallel picks st
     = (Some (inr ((λ c, PyStr.strip nl (text c)) <$> choices c)), st1)) ∧
  (∀ e, out = inl e → (∀ message, e ≠ InvalidRequestError message) →
     _completion (recording completion_create) self model_name prompts max_tokens temperature
       api_key args parallel picks st = (Some (inl e), st1)).
Proof.
  intros Hprobe.
  pose proof (submit_recording completion_create model_name max_tokens temperature api_key args
                prompts st.1 st.2) as Hlog. cbv beta in Hlog.
  destruct st as [s log]. simpl in Hlog. rewrite Hprobe in Hlog.
  split; [done|]. unfold _completion. rewrite Hprobe. split.
  - intros c ->. simpl. do 3 f_equal. apply list_fmap_ext. intros _ c' _. apply strip_empty.
  - intros e -> Hother. destruct e; try done. by destruct (Hother user_message).
Qed.

Lemma completion_first_request_witness :
  _completion (recording (echo 5 None)) init (JStr "text-davinci-002") [CStr "a"; CStr "b"]
    (JInt 20) (JFloat 0) (JStr "key") ∅ true [] (0%nat, [])
  = (Some (inr ["a"; "b"]),
     (1%nat, [Build_Request (JStr "text-davinci-002") [CStr "a"; CStr "b"] (JInt 20) (JFloat 0)
                (JStr "key") JNull])).
Proof.
  destruct (completion_first_request (echo 5 None) init (JStr "text-davinci-002")
              [CStr "a"; CStr "b"] (JInt 20) (JFloat 0) (JStr "key") ∅ true [] (0%nat, [])
              (echo 5 None (Build_Request (JStr "text-davinci-002") [CStr "a"; CStr "b"]
                              (JInt 20) (JFloat 0) (JStr "key") JNull) 0%nat).1
              (1%nat, [Build_Request (JStr "text-davinci-002") [CStr "a"; CStr "b"] (JInt 20)
                         (JFloat 0) (JStr "key") JNull]))
    as (_ & Hanswered & _); [reflexivity|].
  erewrite Hanswered; [|reflexivity]. reflexivity.
Defined.
